(** * Bonsai store: an observable state container

    A shallow embedding of the [Store] class and the two hook factories of
    [src/examples/src/App.tsx] (the library part of the file, after the
    README), together with the part of the JavaScript runtime they rely on:
    object identity, [Object.is], object spread and the insertion-ordered
    [Set] with its live [forEach]. The program runs in a state monad with
    exceptions over the heap, the private fields of the store and the captured
    variables of its closures. Listeners are the callbacks of the application
    and the closures [subscribeWithSelector] makes; they may unsubscribe
    listeners and throw while they are notified, and they do not call [update]
    or [subscribe] from within a notification. *)

From Stdlib Require Import SpecFloat.
From stdpp Require Import gmap strings list fin_maps pretty.

(** ** JavaScript values *)

(** Objects, arrays and functions live in the heap and are denoted by their
    address; two references are the same value exactly when the addresses
    agree. Numbers are IEEE 754 values in the representation of the standard
    library ([S754_nan], [S754_zero s], ...), a finite number being the
    normal form of its binary64 value, as [binary_normalize] yields it. *)

Abbreviation loc := nat (only parsing).

Inductive value : Type :=
| VUndefined
| VNull
| VBool (b : bool)
| VNumber (x : spec_float)
| VString (s : string)
| VRef (l : loc).

#[global] Instance spec_float_eq_dec : EqDecision spec_float.
Proof. solve_decision. Defined.

#[global] Instance value_eq_dec : EqDecision value.
Proof. solve_decision. Defined.

(** SameValue on numbers (ECMA-262, Number::sameValue). *)
Definition same_number (x y : spec_float) : bool :=
  match x, y with
  | S754_nan, S754_nan => true
  | S754_zero s, S754_zero t => bool_decide (s = t)
  | _, _ => SFeqb x y
  end.

(** [Object.is(x, y)]. *)
Definition Object_is (x y : value) : bool :=
  match x, y with
  | VUndefined, VUndefined => true
  | VNull, VNull => true
  | VBool a, VBool b => bool_decide (a = b)
  | VNumber a, VNumber b => same_number a b
  | VString a, VString b => bool_decide (a = b)
  | VRef a, VRef b => bool_decide (a = b)
  | _, _ => false
  end.

(** [x === y], kept for contrast with [Object_is]: it differs on numbers only. *)
Definition strict_equals (x y : value) : bool :=
  match x, y with
  | VNumber a, VNumber b => SFeqb a b
  | _, _ => Object_is x y
  end.

(** An object is its own enumerable properties; the heap is indexed by
    address and grows at its end. *)
Abbreviation obj := (gmap string value).
Abbreviation Heap := (list obj).

(** [{ ...a, ...b }] on the properties of [a] and [b]: the properties of [b]
    win. *)
Definition spread2 (a b : obj) : obj := b ∪ a.

(** The own properties of whatever lives at an address ([{}] when nothing does). *)
Definition props (h : Heap) (l : loc) : obj := default ∅ (h !! l).

(** ** Completions, functions and the state of the program *)

Inductive Completion (A : Type) : Type :=
| Normal (a : A)
| Throw (e : value).
Arguments Normal {A} a.
Arguments Throw {A} e.

(** A selector reads the heap and the state it is given; it returns the
    objects it allocates (they are appended to the heap, in order) and its
    projection, or throws. *)
Definition Selector := Heap → value → Completion (list obj * value).

(** A setter returns the properties of the patch it builds, or throws. *)
Definition Setter := value → Heap → value → Completion obj.

(** Function identity. The callbacks of the application carry a number of
    their own; each [checkForChange] closure is numbered at its creation. *)
Inductive fid : Type :=
| User (n : nat)
| Checker (k : nat).

#[global] Instance fid_eq_dec : EqDecision fid.
Proof. solve_decision. Defined.

(** What a callback of the application does when it runs: it calls
    unsubscribe functions it holds and it may throw. A callback that calls
    [update] or [subscribe] on the store while it is being notified is outside
    this development; the specification leaves such updates unspecified. *)
Inductive stmt : Type :=
| CallUnsubscribe (target : fid)
| ThrowStmt (e : value).

Inductive fn : Type :=
| Callback (n : nat) (body : list stmt)
| CheckForChange (k : nat) (selector : Selector) (listener : fn).

Definition fn_id (f : fn) : fid :=
  match f with
  | Callback n _ => User n
  | CheckForChange k _ _ => Checker k
  end.

(** The function [() => this.#listeners.delete(listener)] returned by
    [subscribe]; it captures the listener. *)
Record Unsubscribe : Type := mkUnsubscribe { captured : fid }.

(** The calls the development observes: [f] called by the [forEach] of
    [emitChange]; [f] called by a [checkForChange] closure as its consumer
    listener; a call of an unsubscribe function that captured [f]. *)
Inductive event : Type :=
| Broadcast (f : fid)
| Notify (f : fid)
| Unsubscribed (f : fid).

#[global] Instance event_eq_dec : EqDecision event.
Proof. solve_decision. Defined.

(** The heap, the two private fields of the store, the [previousValue]
    variable of every [checkForChange] closure, and the calls made so far.
    [listeners] is the entry list of the [Set]: a deleted entry leaves an
    empty slot behind, as in ECMA-262. *)
Record State : Type := mkState {
  heap : Heap;
  data : loc;
  listeners : list (option fn);
  previousValue : list value;
  calls : list event
}.

Definition JS (A : Type) : Type := State → Completion A * State.

Definition ret {A} (a : A) : JS A := λ st, (Normal a, st).
Definition throw {A} (e : value) : JS A := λ st, (Throw e, st).
Definition bind {A B} (m : JS A) (k : A → JS B) : JS B :=
  λ st, match m st with
        | (Normal a, st') => k a st'
        | (Throw e, st') => (Throw e, st')
        end.

#[global] Instance JS_ret : MRet JS := @ret.
#[global] Instance JS_bind : MBind JS := λ A B k m, bind m k.

Definition set_heap (h : Heap) (st : State) : State :=
  mkState h (data st) (listeners st) (previousValue st) (calls st).
Definition set_data (l : loc) (st : State) : State :=
  mkState (heap st) l (listeners st) (previousValue st) (calls st).
Definition set_listeners (ls : list (option fn)) (st : State) : State :=
  mkState (heap st) (data st) ls (previousValue st) (calls st).
Definition set_previousValue (ps : list value) (st : State) : State :=
  mkState (heap st) (data st) (listeners st) ps (calls st).
Definition set_calls (cs : list event) (st : State) : State :=
  mkState (heap st) (data st) (listeners st) (previousValue st) cs.

(** A call, recorded. *)
Definition record (e : event) : JS unit :=
  λ st, (Normal tt, set_calls (calls st ++ [e]) st).

(** ** The [Set] of listeners *)

Definition holds (id : fid) (e : option fn) : bool :=
  match e with
  | Some f => bool_decide (fn_id f = id)
  | None => false
  end.

Definition Set_has (id : fid) (entries : list (option fn)) : bool :=
  existsb (holds id) entries.

(** [Set.prototype.add]: an element already present stays where it is. *)
Definition Set_add (f : fn) (entries : list (option fn)) : list (option fn) :=
  if Set_has (fn_id f) entries then entries else entries ++ [Some f].

(** [Set.prototype.delete]: the entry becomes an empty slot. *)
Fixpoint Set_delete (id : fid) (entries : list (option fn)) : list (option fn) :=
  match entries with
  | [] => []
  | e :: rest => if holds id e then None :: rest else e :: Set_delete id rest
  end.

(** The elements of the set, in insertion order. *)
Definition elements (entries : list (option fn)) : list fn :=
  omap id entries.

(** ** The store *)

(** [constructor(initialData) { this.#data = { ...initialData } }], run in a
    heap [h]. *)
Definition new_Store (h : Heap) (initialData : loc) : State :=
  {| heap := h ++ [props h initialData];
     data := length h;
     listeners := [];
     previousValue := [];
     calls := [] |}.

(** [subscribe(listener)] *)
Definition subscribe (listener : fn) : JS Unsubscribe :=
  λ st, (Normal (mkUnsubscribe (fn_id listener)),
         set_listeners (Set_add listener (listeners st)) st).

(** Calling the function [subscribe] returned. Its result is that of
    [Set.prototype.delete]. *)
Definition listeners_delete (id : fid) : JS bool :=
  λ st, (Normal (Set_has id (listeners st)),
         set_listeners (Set_delete id (listeners st)) st).

Definition unsubscribe (u : Unsubscribe) : JS bool :=
  record (Unsubscribed (captured u));;
  listeners_delete (captured u).

(** [this.#data] *)
Definition this_data : JS value :=
  λ st, (Normal (VRef (data st)), st).

(** [getSnapshot()] *)
Definition getSnapshot : JS value := this_data.

(** [selector(state)]: the allocations of the selector reach the heap. *)
Definition select (selector : Selector) (state : value) : JS value :=
  λ st, match selector (heap st) state with
        | Normal (fresh, v) => (Normal v, set_heap (heap st ++ fresh) st)
        | Throw e => (Throw e, st)
        end.

Fixpoint run_body (body : list stmt) : JS unit :=
  match body with
  | [] => ret tt
  | CallUnsubscribe target :: rest =>
      unsubscribe (mkUnsubscribe target);; run_body rest
  | ThrowStmt e :: _ => throw e
  end.

(** The captured variable [previousValue] of closure number [k]. *)
Definition get_previousValue (k : nat) : JS value :=
  λ st, (Normal (default VUndefined (previousValue st !! k)), st).
Definition put_previousValue (k : nat) (v : value) : JS unit :=
  λ st, (Normal tt, set_previousValue (<[k := v]> (previousValue st)) st).
Definition new_previousValue (v : value) : JS nat :=
  λ st, (Normal (length (previousValue st)),
         set_previousValue (previousValue st ++ [v]) st).

(** Calling a function. The second case is the body of [checkForChange]. *)
Fixpoint call (f : fn) : JS unit :=
  match f with
  | Callback _ body => run_body body
  | CheckForChange k selector listener =>
      state ← this_data;
      currentValue ← select selector state;
      previous ← get_previousValue k;
      if Object_is previous currentValue then ret tt
      else
        put_previousValue k currentValue;;
        record (Notify (fn_id listener));;
        call listener
  end.

(** [subscribeWithSelector(selector, listener)]: the initial
    [previousValue], the closure, and [this.subscribe(checkForChange)]. *)
Definition subscribeWithSelector (selector : Selector) (listener : fn)
  : JS Unsubscribe :=
  state ← this_data;
  initial ← select selector state;
  k ← new_previousValue initial;
  subscribe (CheckForChange k selector listener).

(** [this.#listeners.forEach(listener => listener())], from entry [i] on, for
    at most [n] entries. Each entry is read from the set as it is when the
    loop reaches it. *)
Fixpoint forEach_from (n i : nat) : JS unit :=
  match n with
  | 0 => ret tt
  | S n' =>
      λ st, match listeners st !! i with
            | None => (Normal tt, st)
            | Some None => forEach_from n' (S i) st
            | Some (Some listener) =>
                (record (Broadcast (fn_id listener));;
                 call listener;;
                 forEach_from n' (S i)) st
            end
  end.

Definition emitChange : JS unit :=
  λ st, forEach_from (length (listeners st)) 0 st.

(** [this.#data = { ...this.#data, ...updates }] *)
Definition merge (updates : obj) : JS unit :=
  λ st, let next := spread2 (props (heap st) (data st)) updates in
        (Normal tt, set_data (length (heap st)) (set_heap (heap st ++ [next]) st)).

(** [update(updates)] *)
Definition update (updates : obj) : JS unit :=
  merge updates;; emitChange.

(** ** The hook factories *)

(** React's [useSyncExternalStore(subscribe, getSnapshot, getServerSnapshot)]
    is not part of the repository. The factories are modelled by the three
    functions they hand to it: React calls the first with its own listener when
    the component mounts, and a render returns what the second returns. *)
Record ExternalStore : Type := mkExternalStore {
  es_subscribe : fn → JS Unsubscribe;
  es_getSnapshot : JS value;
  es_getServerSnapshot : JS value
}.

Definition external (selector : Selector) : ExternalStore :=
  {| es_subscribe := λ listener, subscribeWithSelector selector listener;
     es_getSnapshot := (state ← getSnapshot; select selector state);
     es_getServerSnapshot := (state ← getSnapshot; select selector state) |}.

(** [createSelectorHook(storeInstance, selector)] *)
Definition createSelectorHook (selector : Selector) : ExternalStore :=
  external selector.

Definition apply_setter (setter : Setter) (newValue currentState : value)
  : JS obj :=
  λ st, match setter newValue (heap st) currentState with
        | Normal updates => (Normal updates, st)
        | Throw e => (Throw e, st)
        end.

(** The function [setValue] of [createHook]. *)
Definition setValue (setter : Setter) (newValue : value) : JS unit :=
  currentState ← getSnapshot;
  updates ← apply_setter setter newValue currentState;
  update updates.

(** [createHook(storeInstance, selector, setter)]: what a call of the hook
    reads and the [setValue] it returns. *)
Definition createHook (selector : Selector) (setter : Setter)
  : ExternalStore * (value → JS unit) :=
  (external selector, setValue setter).

(** ** Code around the store *)

(** [o.k = v] on the object at address [l], by code outside the store. *)
Definition assign (l : loc) (k : string) (v : value) : JS unit :=
  λ st, (Normal tt, set_heap (<[l := <[k := v]> (props (heap st) l)]> (heap st)) st).

(** [o.k] on the properties of [o]. *)
Definition read (k : string) (o : obj) : value := default VUndefined (o !! k).

(** The number literal of an integer, as a binary64 value. *)
Definition number (z : Z) : value := VNumber (binary_normalize 53 1024 z 0 false).

(** [state => state.k] *)
Definition field (k : string) : Selector :=
  λ h state,
    match state with
    | VRef l => Normal ([], read k (props h l))
    | VUndefined | VNull => Throw (VString "TypeError")
    | _ => Normal ([], VUndefined)
    end.

(** [state => state?.k ?? d] *)
Definition field_or (k : string) (d : value) : Selector :=
  λ h state,
    match state with
    | VRef l =>
        match read k (props h l) with
        | VUndefined | VNull => Normal ([], d)
        | v => Normal ([], v)
        end
    | _ => Normal ([], d)
    end.

(** [state => state] *)
Definition whole_state : Selector := λ _ state, Normal ([], state).

(** [(value, _state) => ({ k: value })] *)
Definition set_field (k : string) : Setter :=
  λ newValue _ _, Normal {[ k := newValue ]}.

(** A client of the store: a sequence of calls of its public methods and of
    unsubscribe functions. An exception reaches the client, which goes on. *)
Inductive action : Type :=
| DoSubscribe (listener : fn)
| DoSubscribeWithSelector (selector : Selector) (listener : fn)
| DoUnsubscribe (u : Unsubscribe)
| DoUpdate (updates : obj).

Definition perform (a : action) (st : State) : State :=
  match a with
  | DoSubscribe listener => (subscribe listener st).2
  | DoSubscribeWithSelector selector listener =>
      (subscribeWithSelector selector listener st).2
  | DoUnsubscribe u => (unsubscribe u st).2
  | DoUpdate updates => (update updates st).2
  end.

Definition run (acts : list action) (st : State) : State :=
  foldl (λ s a, perform a s) st acts.

(** ** The counter of the examples *)

(** [new Store<CounterState>({ count: 0, step: 1 })], the object literal
    being the one object of the heap. *)
Definition counterState : obj := {[ "count" := number 0; "step" := number 1 ]}.
Definition counterStore : State := new_Store [counterState] 0.

Definition useCount : ExternalStore * (value → JS unit) :=
  createHook (field_or "count" (number 0)) (set_field "count").
Definition useStep : ExternalStore * (value → JS unit) :=
  createHook (field_or "step" (number 1)) (set_field "step").
Definition useCounterState : ExternalStore :=
  createSelectorHook whole_state.

(** The listener React passes for its [n]-th mounted component: it schedules
    a render and returns. *)
Definition onStoreChange (n : nat) : fn := Callback n [].

(** The counter with a subscriber to [count] and a subscriber to [step]. *)
Definition watched : State :=
  run [DoSubscribeWithSelector (field "count") (onStoreChange 0);
       DoSubscribeWithSelector (field "step") (onStoreChange 1)] counterStore.

(** The counter with a subscriber to the whole state. *)
Definition observed : State :=
  run [DoSubscribeWithSelector whole_state (onStoreChange 0)] counterStore.

(** The counter with three raw listeners, the second of which throws. *)
Definition failing : fn := Callback 1 [ThrowStmt (VString "boom")].
Definition crowded : State :=
  run [DoSubscribe (onStoreChange 0); DoSubscribe failing;
       DoSubscribe (onStoreChange 2)] counterStore.

(** [state => state.k1.k2]: reading a property of [undefined] or of [null]
    throws a [TypeError]. *)
Definition nested_field (k1 k2 : string) : Selector :=
  λ h state,
    match state with
    | VRef l =>
        match read k1 (props h l) with
        | VRef l' => Normal ([], read k2 (props h l'))
        | VUndefined | VNull => Throw (VString "TypeError")
        | _ => Normal ([], VUndefined)
        end
    | VUndefined | VNull => Throw (VString "TypeError")
    | _ => Normal ([], VUndefined)
    end.

(** [new Store({ user: { name: "Ann" } })] with a subscriber to
    [state.user.name] between two raw listeners. *)
Definition profileStore : State :=
  new_Store [ {[ "name" := VString "Ann" ]}; {[ "user" := VRef 0 ]} ] 1.
Definition profile : State :=
  run [DoSubscribe (onStoreChange 0);
       DoSubscribeWithSelector (nested_field "user" "name") (onStoreChange 1);
       DoSubscribe (onStoreChange 2)] profileStore.

(** The counter with a raw listener and a subscriber to [count] whose
    consumer throws. *)
Definition alarmed : State :=
  run [DoSubscribe (onStoreChange 0);
       DoSubscribeWithSelector (field "count") failing] counterStore.

(** ** Observations *)

(** The properties of the current snapshot. *)
Definition snapshot (st : State) : obj := props (heap st) (data st).

(** A memoized value that is the projection of the current snapshot. *)
Definition in_sync (st : State) (k : nat) (f : string) : Prop :=
  previousValue st !! k = Some (read f (snapshot st)).

(** The functions called by [forEach], the oldest call first. *)
Definition broadcasts (evs : list event) : list fid :=
  omap (λ e, match e with Broadcast f => Some f | _ => None end) evs.

(** How many times a [checkForChange] closure called the consumer [f]. *)
Definition notifications (f : fid) (evs : list event) : nat :=
  count_occ event_eq_dec evs (Notify f).

Definition ids (entries : list (option fn)) : list fid :=
  fn_id <$> elements entries.

(** ** Relations between states *)

(** Entries are only ever emptied by a deletion. *)
Definition deletes (ls ls' : list (option fn)) : Prop :=
  Forall2 (λ e e', e' = e ∨ e' = None) ls ls'.

(** Calls keep [this.#data], extend the heap and the record of calls at
    their end, only empty entries of the set, and create no closure. *)
Record evolves (st st' : State) : Prop := mkEvolves {
  ev_data : data st' = data st;
  ev_heap : heap st `prefix_of` heap st';
  ev_listeners : deletes (listeners st) (listeners st');
  ev_previousValue : length (previousValue st') = length (previousValue st);
  ev_calls : calls st `prefix_of` calls st'
}.

(** A listener that returns and leaves the set of listeners alone. *)
Definition calm (g : fn) : Prop :=
  ∀ st, ∃ st', call g st = (Normal tt, st') ∧ listeners st' = listeners st.


(** A listener that returns, leaves the set of listeners alone, and has
    nothing to do with closure number [k] nor with its consumer [c]. *)
Definition quiet (k : nat) (c : fid) (g : fn) : Prop :=
  ∀ st, ∃ st',
    call g st = (Normal tt, st') ∧
    listeners st' = listeners st ∧
    previousValue st' !! k = previousValue st !! k ∧
    notifications c (calls st') = notifications c (calls st).

(** The subscription made of closure number [k], selector [selector] and
    consumer [listener] is entry [i] of the set, and every other listener,
    like the consumer itself, is quiet about it. *)
Definition subscribed (st : State) (i k : nat) (selector : Selector)
    (listener : fn) : Prop :=
  listeners st !! i = Some (Some (CheckForChange k selector listener)) ∧
  quiet k (fn_id listener) listener ∧
  ∀ j g, j ≠ i → listeners st !! j = Some (Some g) → quiet k (fn_id listener) g.

(** A listener that throws [e] whenever it is called. *)
Definition throws (g : fn) (e : value) : Prop :=
  ∀ st, (call g st).1 = Throw e.

(** The states of a store: the snapshot is an object of the heap and no
    function is twice in the set of listeners. *)
Record wf (st : State) : Prop := mkWf {
  wf_data : data st < length (heap st);
  wf_listeners : NoDup (ids (listeners st))
}.

(** ** Unsubscription, seen in the record of calls *)

(** In [evs], [forEach] does not call [x] after an unsubscribe function of
    [x] was called. *)
Definition never_after (x : fid) (evs : list event) : Prop :=
  ∀ pre post, evs = pre ++ Unsubscribed x :: post → Broadcast x ∉ post.

(** What every step of the store does about a function [x], from a set
    without duplicates: [evs] are the calls of the step. *)
Definition respects (x : fid) (st st' : State) : Prop :=
  NoDup (ids (listeners st)) →
  ∃ evs, calls st' = calls st ++ evs ∧
         NoDup (ids (listeners st')) ∧
         (Set_has x (listeners st) = false →
          Set_has x (listeners st') = false ∧ Broadcast x ∉ evs) ∧
         (Unsubscribed x ∈ evs → Set_has x (listeners st') = false) ∧
         never_after x evs.

(** The client does not register [x] (again): it does not pass it to
    [subscribe], and [x] is not a closure still to be created. *)
Definition never_resubscribed (x : fid) (acts : list action) (st : State) : Prop :=
  (∀ listener, DoSubscribe listener ∈ acts → fn_id listener ≠ x) ∧
  (∀ k, x = Checker k → k < length (previousValue st)).

(** A listener that returns whenever it is called. *)
Definition returns (g : fn) : Prop :=
  ∀ st, ∃ st', call g st = (Normal tt, st').

(** ** The selector subscription, in the words of the specification *)

(** Section 4.2: on every raw broadcast, compute the current projection of
    the latest snapshot and compare it with the previous one by same-value
    equality; if they are unequal, set the previous one to the current one
    and invoke the consumer listener; if they are equal, do nothing. *)
Definition adapter_broadcast (k : nat) (selector : Selector) (listener : fn)
  : JS unit :=
  latestSnapshot ← getSnapshot;
  current ← select selector latestSnapshot;
  previous ← get_previousValue k;
  if bool_decide (previous = current) then mret tt
  else
    put_previousValue k current;;
    record (Notify (fn_id listener));;
    call listener.

(** Section 4.2: on subscription creation, compute the previous projection
    once; the adapter is the raw listener that does the above. *)
Definition adapter (selector : Selector) (listener : fn) : JS fn :=
  snapshot ← getSnapshot;
  previous ← select selector snapshot;
  k ← new_previousValue previous;
  mret (CheckForChange k selector listener).

(** Section 4.1: [subscribeWithSelector] composes [subscribe] with the
    change detection of section 4.2. *)
Definition subscribeWithSelector_spec (selector : Selector) (listener : fn)
  : JS Unsubscribe :=
  raw ← adapter selector listener;
  subscribe raw.

(** Every closure of the set was created by [subscribeWithSelector]. *)
Definition closures_created (st : State) : Prop :=
  ∀ k, Checker k ∈ ids (listeners st) → k < length (previousValue st).

(** * More of the code *)

(** ** The constructor on any value *)

(** The characters of a string as properties: ["0"], ["1"], ... *)
Definition chars (s : string) : obj :=
  list_to_map (imap (λ i c, (pretty i, VString (String c ""))) (String.list_ascii_of_string s)).

(** [{ ...v }] for any value [v]: the own properties of an object, the
    characters of a string, and nothing for the other primitives. *)
Definition spread (h : Heap) (v : value) : obj :=
  match v with
  | VRef l => props h l
  | VString s => chars s
  | _ => ∅
  end.

(** [new Store(initialData)] for any [initialData], [null] included. *)
Definition new_Store_from (h : Heap) (initialData : value) : State :=
  {| heap := h ++ [spread h initialData];
     data := length h;
     listeners := [];
     previousValue := [];
     calls := [] |}.

(** ** Selectors that project the properties of the state *)

(** On a state that is an object, [selector] allocates nothing and returns
    [p] of its properties. *)
Definition projects (selector : Selector) (p : obj → value) : Prop :=
  ∀ h l, selector h (VRef l) = Normal ([], p (props h l)).

(** On a state that is an object, [selector] allocates nothing and returns
    [p] of its address and of its properties. The selectors that project the
    properties are of this kind, and so is [state => state]. *)
Definition reads (selector : Selector) (p : loc → obj → value) : Prop :=
  ∀ h l, selector h (VRef l) = Normal ([], p l (props h l)).

(** What such a selector returns on the current snapshot. *)
Definition selected (p : loc → obj → value) (st : State) : value :=
  p (data st) (snapshot st).

(** How many of the updates [Ps], run one after the other from [st], change
    what the selector returns. *)
Fixpoint changed (p : loc → obj → value) (st : State) (Ps : list obj) : nat :=
  match Ps with
  | [] => 0
  | P :: Ps' =>
      let st' := (update P st).2 in
      (if Object_is (selected p st) (selected p st') then 0 else 1) +
      changed p st' Ps'
  end.

(** [o?.k ?? d] on the properties of [o]. *)
Definition read_or (k : string) (d : value) (o : obj) : value :=
  match read k o with
  | VUndefined | VNull => d
  | v => v
  end.

(** How many of the patches [Ps], merged one after the other into [o],
    change the projection [p]. *)
Fixpoint changes (p : obj → value) (o : obj) (Ps : list obj) : nat :=
  match Ps with
  | [] => 0
  | P :: Ps' =>
      (if Object_is (p o) (p (spread2 o P)) then 0 else 1) +
      changes p (spread2 o P) Ps'
  end.

(** What a mounted hook needs of the store it is mounted on: the closure it
    makes is new, and neither its listener nor the listeners of the store have
    to do with that closure and that listener. *)
Definition mountable (st : State) (listener : fn) : Prop :=
  Set_has (Checker (length (previousValue st))) (listeners st) = false ∧
  quiet (length (previousValue st)) (fn_id listener) listener ∧
  ∀ g, g ∈ elements (listeners st) →
       quiet (length (previousValue st)) (fn_id listener) g.

(** ** The counter component of the example *)

(** [ToBoolean] *)
Definition ToBoolean (v : value) : bool :=
  match v with
  | VUndefined | VNull => false
  | VBool b => b
  | VNumber S754_nan | VNumber (S754_zero _) => false
  | VNumber _ => true
  | VString s => negb (bool_decide (s = ""))
  | VRef _ => true
  end.

(** [a || b], [b] being a value already. *)
Definition or_else (a b : value) : value := if ToBoolean a then a else b.

(** What a render of [Counter] shows and the handlers it makes. *)
Record CounterView : Type := mkCounterView {
  count : value;
  step : value;
  increment : JS unit;
  decrement : JS unit;
  reset : JS unit;
  onChange : string → JS unit
}.

Section Counter.
(** The operators [+] and [-] of the language on two values, and
    [parseInt] on a string, which yields a number. *)
Variables (plus minus : value → value → value) (parseInt : string → spec_float).

(** [Counter()]: the two hooks are read, and the handlers close over what
    was read. *)
Definition Counter : JS CounterView :=
  count ← es_getSnapshot useCount.1;
  step ← es_getSnapshot useStep.1;
  mret {| count := count;
          step := step;
          increment := useCount.2 (plus count step);
          decrement := useCount.2 (minus count step);
          reset := useCount.2 (number 0);
          onChange := λ target_value,
            useStep.2 (or_else (VNumber (parseInt target_value)) (number 1)) |}.
End Counter.

(** [+] and [-] on two numbers, as an instance. *)
Definition number_plus (a b : value) : value :=
  match a, b with
  | VNumber x, VNumber y => VNumber (SFadd 53 1024 x y)
  | _, _ => VUndefined
  end.
Definition number_minus (a b : value) : value :=
  match a, b with
  | VNumber x, VNumber y => VNumber (SFsub 53 1024 x y)
  | _, _ => VUndefined
  end.

(** ** The hooks of the server-side rendering example *)

(** [state => state?.posts] and [state => state?.user] *)
Definition optional_field (k : string) : Selector :=
  λ h state,
    match state with
    | VRef l => Normal ([], read k (props h l))
    | _ => Normal ([], VUndefined)
    end.

(** [() => store.getSnapshot()?.posts ?? []]: the array literal is a new
    object each time it is evaluated. *)
Definition posts_or_empty : Selector :=
  λ h state,
    match state with
    | VRef l =>
        match read "posts" (props h l) with
        | VUndefined | VNull => Normal ([∅], VRef (length h))
        | v => Normal ([], v)
        end
    | _ => Normal ([∅], VRef (length h))
    end.

(** [() => store.getSnapshot()?.user ?? null] *)
Definition user_or_null : Selector :=
  λ h state,
    match state with
    | VRef l =>
        match read "user" (props h l) with
        | VUndefined | VNull => Normal ([], VNull)
        | v => Normal ([], v)
        end
    | _ => Normal ([], VNull)
    end.

(** [usePosts()] and [useUser()], by the three functions they hand to
    [useSyncExternalStore]. *)
Definition usePosts : ExternalStore :=
  {| es_subscribe := λ listener, subscribeWithSelector (optional_field "posts") listener;
     es_getSnapshot := (state ← getSnapshot; select posts_or_empty state);
     es_getServerSnapshot := (state ← getSnapshot; select posts_or_empty state) |}.
Definition useUser : ExternalStore :=
  {| es_subscribe := λ listener, subscribeWithSelector (optional_field "user") listener;
     es_getSnapshot := (state ← getSnapshot; select user_or_null state);
     es_getServerSnapshot := (state ← getSnapshot; select user_or_null state) |}.

(** ** More states of the counter *)

(** Three raw listeners, the first of which unsubscribes the second. *)
Definition pruner : fn := Callback 0 [CallUnsubscribe (User 1)].
Definition pruned : State :=
  run [DoSubscribe pruner; DoSubscribe (onStoreChange 1);
       DoSubscribe (onStoreChange 2)] counterStore.

(** Three raw listeners, the second of which unsubscribes itself. *)
Definition once : fn := Callback 1 [CallUnsubscribe (User 1)].
Definition with_once : State :=
  run [DoSubscribe (onStoreChange 0); DoSubscribe once;
       DoSubscribe (onStoreChange 2)] counterStore.

(** The counter after [update({ count: 3 })], before the broadcast, with a
    subscriber to [count] that throws. *)
Definition thrower : fn := Callback 0 [ThrowStmt (VString "boom")].
Definition unsettled : State :=
  (merge {[ "count" := number 3 ]}
     (run [DoSubscribeWithSelector (field "count") thrower] counterStore)).2.
(** * Properties *)

(** ** [Object.is] *)

Lemma SFeqb_finite_eq s1 m1 e1 s2 m2 e2 :
  SFeqb (S754_finite s1 m1 e1) (S754_finite s2 m2 e2) = true ↔
  S754_finite s1 m1 e1 = S754_finite s2 m2 e2.
Proof.
  unfold SFeqb, SFcompare. split.
  - destruct s1, s2; try discriminate;
      destruct (Z.compare_spec e1 e2) as [He|He|He]; try discriminate;
      change (PosDef.Pos.compare_cont Eq m1 m2) with (Pos.compare m1 m2);
      destruct (Pos.compare_spec m1 m2) as [Hm|Hm|Hm]; try discriminate;
      by subst.
  - intros [= -> -> ->].
    destruct s2; rewrite Z.compare_refl, Pos.compare_cont_refl; reflexivity.
Qed.

Lemma same_number_eq x y : same_number x y = true ↔ x = y.
Proof.
  destruct x as [s1|s1| |s1 m1 e1], y as [s2|s2| |s2 m2 e2];
    try (by split; [destruct s1; try destruct s2 | ]);
    try (by split; [ | destruct s2]).
  - simpl. rewrite bool_decide_eq_true. by split; [intros ->|intros [= ->]].
  - by destruct s1, s2.
  - done.
  - apply SFeqb_finite_eq.
Qed.

(** [Object_is] decides equality of values: identity on references, and on
    numbers the one equality in which NaN is itself and the two zeros differ. *)
Lemma Object_is_eq x y : Object_is x y = true ↔ x = y.
Proof.
  destruct x, y; simpl; try (split; [discriminate | intros [=]]); try done;
    try (rewrite bool_decide_eq_true; split; [intros ->|intros [= ->]]; done).
  rewrite same_number_eq. split; [intros ->|intros [= ->]]; done.
Qed.

Lemma Object_is_refl x : Object_is x x = true.
Proof. by apply Object_is_eq. Qed.

Lemma Object_is_neq x y : Object_is x y = false ↔ x ≠ y.
Proof. rewrite <- Object_is_eq. by destruct (Object_is x y). Qed.

(** ** The set of listeners *)

#[global] Instance deletes_refl : Reflexive deletes.
Proof. intros ls. apply Forall2_same_length_lookup_2; naive_solver. Qed.

#[global] Instance deletes_trans : Transitive deletes.
Proof.
  intros a b c Hab. revert c.
  induction Hab as [|x y a b Hxy _ IH]; intros c Hbc;
    inversion Hbc as [|? z ? c' Hyz Hbc']; subst; constructor; [|by apply IH].
  destruct Hxy as [->| ->], Hyz as [->| ->]; auto.
Qed.

Lemma deletes_length ls ls' : deletes ls ls' → length ls' = length ls.
Proof. intros H. symmetry. by eapply Forall2_length. Qed.

Lemma Set_delete_deletes x ls : deletes ls (Set_delete x ls).
Proof.
  induction ls as [|e ls IH]; simpl; [constructor|].
  destruct (holds x e); constructor; auto; reflexivity.
Qed.

Lemma deletes_has x ls ls' :
  deletes ls ls' → Set_has x ls = false → Set_has x ls' = false.
Proof.
  unfold Set_has. induction 1 as [|e e' ls ls' [->| ->] _ IH]; simpl; [done|..];
    rewrite ?orb_false_iff; intros []; auto.
Qed.

Lemma deletes_ids ls ls' : deletes ls ls' → ids ls' `sublist_of` ids ls.
Proof.
  unfold ids, elements.
  induction 1 as [|e e' ls ls' [->| ->] _ IH]; simpl; [done|..].
  - destruct e; simpl; [by constructor|done].
  - destruct e; simpl; [by constructor|done].
Qed.

Lemma Set_has_ids x ls : Set_has x ls = true ↔ x ∈ ids ls.
Proof.
  unfold Set_has, ids, elements. induction ls as [|[f|] ls IH]; simpl.
  - split; [done|]. by intros ?%elem_of_nil.
  - rewrite orb_true_iff, bool_decide_eq_true, elem_of_cons, IH.
    split; (intros [?|?]; [left|right]); done.
  - done.
Qed.

Lemma Set_has_false_ids x ls : Set_has x ls = false ↔ x ∉ ids ls.
Proof. rewrite <- Set_has_ids. by destruct (Set_has x ls). Qed.

Lemma ids_app ls1 ls2 : ids (ls1 ++ ls2) = ids ls1 ++ ids ls2.
Proof. unfold ids, elements. by rewrite omap_app, fmap_app. Qed.

Lemma ids_Set_add f ls :
  ids (Set_add f ls) = if Set_has (fn_id f) ls then ids ls else ids ls ++ [fn_id f].
Proof. unfold Set_add. destruct (Set_has _ ls); [done|]. by rewrite ids_app. Qed.

Lemma Set_add_NoDup f ls : NoDup (ids ls) → NoDup (ids (Set_add f ls)).
Proof.
  intros H. rewrite ids_Set_add. destruct (Set_has _ ls) eqn:E; [done|].
  apply Set_has_false_ids in E. apply NoDup_app. split_and!; [done| |].
  - intros y Hy ->%list_elem_of_singleton. done.
  - apply NoDup_singleton.
Qed.

Lemma Set_delete_NoDup x ls : NoDup (ids ls) → NoDup (ids (Set_delete x ls)).
Proof.
  intros H. eapply sublist_NoDup; [exact H|].
  apply deletes_ids, Set_delete_deletes.
Qed.

(** Deleting an element of a duplicate-free set leaves no trace of it. *)
Lemma Set_delete_has x ls :
  NoDup (ids ls) → Set_has x (Set_delete x ls) = false.
Proof.
  unfold ids, elements, Set_has.
  induction ls as [|[f|] ls IH]; simpl; [done|..].
  - rewrite NoDup_cons. intros [Hf Hls]. case_bool_decide as E; simpl.
    + subst x. apply (proj2 (Set_has_false_ids _ _)) in Hf. exact Hf.
    + rewrite bool_decide_eq_false_2 by done. simpl. auto.
  - auto.
Qed.

Lemma Set_delete_absent x ls : Set_has x ls = false → Set_delete x ls = ls.
Proof.
  unfold Set_has. induction ls as [|e ls IH]; simpl; [done|].
  rewrite orb_false_iff. intros [-> H]. by rewrite IH.
Qed.

Lemma Set_delete_other x y ls :
  x ≠ y → Set_has y (Set_delete x ls) = Set_has y ls.
Proof.
  intros Hxy. unfold Set_has. induction ls as [|[f|] ls IH]; simpl; [done|..].
  - case_bool_decide as E; simpl.
    + subst x. by rewrite bool_decide_eq_false_2.
    + by rewrite IH.
  - by rewrite IH.
Qed.

(** ** What a call can do to the state *)

Lemma bind_unfold {A B} (m : JS A) (k : A → JS B) st :
  (m ≫= k) st =
  match m st with
  | (Normal a, st') => k a st'
  | (Throw e, st') => (Throw e, st')
  end.
Proof. reflexivity. Qed.

(** The body of [checkForChange], step by step. *)
Lemma call_CheckForChange k selector listener st :
  call (CheckForChange k selector listener) st =
  match selector (heap st) (VRef (data st)) with
  | Throw e => (Throw e, st)
  | Normal (fresh, currentValue) =>
      let st1 := set_heap (heap st ++ fresh) st in
      if Object_is (default VUndefined (previousValue st !! k)) currentValue
      then (Normal tt, st1)
      else call listener
             (set_calls (calls st ++ [Notify (fn_id listener)])
                (set_previousValue (<[k := currentValue]> (previousValue st)) st1))
  end.
Proof.
  simpl. rewrite bind_unfold. simpl. rewrite bind_unfold. unfold select. simpl.
  destruct (selector _ _) as [[fresh v]|e]; [|done].
  rewrite bind_unfold. simpl. by destruct (Object_is _ v).
Qed.

Lemma unsubscribe_unfold u st :
  unsubscribe u st =
  (Normal (Set_has (captured u) (listeners st)),
   set_listeners (Set_delete (captured u) (listeners st))
     (set_calls (calls st ++ [Unsubscribed (captured u)]) st)).
Proof. reflexivity. Qed.

Lemma run_body_unsubscribe target rest st :
  run_body (CallUnsubscribe target :: rest) st =
  run_body rest (unsubscribe (mkUnsubscribe target) st).2.
Proof. reflexivity. Qed.

Lemma forEach_from_S n i st :
  forEach_from (S n) i st =
  match listeners st !! i with
  | None => (Normal tt, st)
  | Some None => forEach_from n (S i) st
  | Some (Some listener) =>
      match call listener (record (Broadcast (fn_id listener)) st).2 with
      | (Normal _, st') => forEach_from n (S i) st'
      | (Throw e, st') => (Throw e, st')
      end
  end.
Proof.
  simpl. by destruct (listeners st !! i) as [[listener|]|].
Qed.

Lemma update_unfold updates st :
  update updates st = emitChange (merge updates st).2.
Proof. reflexivity. Qed.

#[global] Instance evolves_refl : Reflexive evolves.
Proof. intros st. by constructor. Qed.

#[global] Instance evolves_trans : Transitive evolves.
Proof.
  intros a b c [] []. constructor; try (etrans; eassumption).
Qed.

Lemma record_evolves e st : evolves st (record e st).2.
Proof. constructor; simpl; try done. by apply prefix_app_r. Qed.

Lemma unsubscribe_evolves u st : evolves st (unsubscribe u st).2.
Proof.
  constructor; simpl; try done.
  - apply Set_delete_deletes.
  - by apply prefix_app_r.
Qed.

Lemma select_evolves selector state st : evolves st (select selector state st).2.
Proof.
  unfold select. destruct (selector _ _) as [[fresh v]|e]; [|done].
  constructor; simpl; try done. by apply prefix_app_r.
Qed.

Lemma put_previousValue_evolves k v st : evolves st (put_previousValue k v st).2.
Proof. constructor; simpl; try done. apply length_insert. Qed.

Lemma bind_evolves {A B} (m : JS A) (k : A → JS B) st :
  evolves st (m st).2 →
  (∀ a st', evolves st' (k a st').2) →
  evolves st ((m ≫= k) st).2.
Proof.
  intros Hm Hk. rewrite bind_unfold. destruct (m st) as [[a|e] st']; [|done].
  etrans; [exact Hm|apply Hk].
Qed.

Lemma run_body_evolves body st : evolves st (run_body body st).2.
Proof.
  revert st. induction body as [|[target|e] body IH]; intros st; simpl; [done| |done].
  apply bind_evolves; [apply unsubscribe_evolves|auto].
Qed.

Lemma call_evolves f st : evolves st (call f st).2.
Proof.
  revert st. induction f as [n body|k selector listener IH]; intros st; simpl.
  { apply run_body_evolves. }
  apply bind_evolves; [done|]. intros state st1.
  apply bind_evolves; [apply select_evolves|]. intros currentValue st2.
  apply bind_evolves; [done|]. intros previous st3.
  destruct (Object_is previous currentValue); [done|].
  apply bind_evolves; [apply put_previousValue_evolves|]. intros _ st4.
  apply bind_evolves; [apply record_evolves|]. intros _ st5. apply IH.
Qed.

Lemma forEach_from_evolves n i st : evolves st (forEach_from n i st).2.
Proof.
  revert i st. induction n as [|n IH]; intros i st; simpl; [done|].
  destruct (listeners st !! i) as [[listener|]|]; [|apply IH|done].
  apply bind_evolves; [apply record_evolves|]. intros _ st1.
  apply bind_evolves; [apply call_evolves|]. intros _ st2. apply IH.
Qed.

Lemma emitChange_evolves st : evolves st (emitChange st).2.
Proof. apply forEach_from_evolves. Qed.

(** A call made by a listener is never a call by [forEach]. *)
Lemma broadcasts_app evs1 evs2 :
  broadcasts (evs1 ++ evs2) = broadcasts evs1 ++ broadcasts evs2.
Proof. apply omap_app. Qed.

Lemma run_body_broadcasts body st :
  broadcasts (calls (run_body body st).2) = broadcasts (calls st).
Proof.
  revert st. induction body as [|[target|e] body IH]; intros st; [done| |done].
  rewrite run_body_unsubscribe, IH. simpl. rewrite broadcasts_app. apply app_nil_r.
Qed.

Lemma call_broadcasts f st :
  broadcasts (calls (call f st).2) = broadcasts (calls st).
Proof.
  revert st. induction f as [n body|k selector listener IH]; intros st.
  { apply run_body_broadcasts. }
  rewrite call_CheckForChange.
  destruct (selector _ _) as [[fresh v]|e]; simpl; [|done].
  destruct (Object_is _ v); simpl; [done|].
  rewrite IH. simpl. rewrite broadcasts_app. apply app_nil_r.
Qed.

(** ** The loop of [emitChange] *)

(** The loop over [a + b] entries is the loop over the first [a] of them
    followed by the loop over the rest. *)
Lemma forEach_from_split a b : ∀ i st,
  i + a ≤ length (listeners st) →
  forEach_from (a + b) i st = (forEach_from a i;; forEach_from b (i + a)) st.
Proof.
  induction a as [|a IH]; intros i st Hi.
  { rewrite bind_unfold, Nat.add_0_r. reflexivity. }
  rewrite bind_unfold. change (S a + b) with (S (a + b)).
  rewrite !forEach_from_S.
  destruct (lookup_lt_is_Some_2 (listeners st) i) as [e He]; [lia|].
  rewrite He. destruct e as [g|].
  - pose proof (call_evolves g (record (Broadcast (fn_id g)) st).2) as E.
    destruct (call g _) as [[[]|e] st'] eqn:Hcall; [|done].
    apply ev_listeners, deletes_length in E. simpl in E.
    rewrite IH, bind_unfold by lia.
    by replace (S i + a) with (i + S a) by lia.
  - rewrite IH, bind_unfold by lia.
    by replace (S i + a) with (i + S a) by lia.
Qed.

(** A rule for the loop over entries that return and leave the set alone:
    [Q j] holds when the loop is about to read entry [j]. *)
Lemma forEach_from_inv (Q : nat → State → Prop) ls a : ∀ i st,
  listeners st = ls → i + a ≤ length ls → Q i st →
  (∀ j s, i ≤ j < i + a → listeners s = ls → Q j s →
     match ls !! j with
     | Some (Some g) =>
         ∃ s', call g (record (Broadcast (fn_id g)) s).2 = (Normal tt, s') ∧
               listeners s' = ls ∧ Q (S j) s'
     | _ => Q (S j) s
     end) →
  ∃ st', forEach_from a i st = (Normal tt, st') ∧ listeners st' = ls ∧
         Q (i + a) st'.
Proof.
  induction a as [|a IH]; intros i st Hls Hi HQ Hstep.
  { exists st. by rewrite Nat.add_0_r. }
  rewrite forEach_from_S, Hls.
  pose proof (Hstep i st ltac:(lia) Hls HQ) as Hi'.
  destruct (lookup_lt_is_Some_2 ls i) as [e He]; [lia|].
  rewrite He in Hi' |- *. replace (i + S a) with (S i + a) by lia.
  destruct e as [g|].
  - destruct Hi' as (s' & -> & Hs' & HQ').
    apply IH; [done|lia|done|]. intros j s Hj. apply Hstep. lia.
  - apply IH; [done|lia|done|]. intros j s Hj. apply Hstep. lia.
Qed.

(** ** Listeners that return and leave the set of listeners alone *)

Lemma calm_Callback n : calm (Callback n []).
Proof. intros st. by exists st. Qed.

Lemma calm_CheckForChange k selector listener :
  (∀ h l, ∃ r, selector h (VRef l) = Normal r) → calm listener →
  calm (CheckForChange k selector listener).
Proof.
  intros Hsel Hl st. rewrite call_CheckForChange.
  destruct (Hsel (heap st) (data st)) as [[fresh v] ->]. simpl.
  destruct (Object_is _ v); [by eexists|].
  destruct (Hl (set_calls (calls st ++ [Notify (fn_id listener)])
                  (set_previousValue (<[k := v]> (previousValue st))
                     (set_heap (heap st ++ fresh) st)))) as (st' & Hcall & Hls).
  by exists st'.
Qed.

Lemma elements_lookup ls j g : ls !! j = Some (Some g) → g ∈ elements ls.
Proof.
  intros H. apply list_elem_of_omap. exists (Some g). split; [|done].
  by eapply list_elem_of_lookup_2.
Qed.

Lemma ids_take_S ls j :
  ids (take (S j) ls) =
  ids (take j ls) ++ match ls !! j with Some (Some g) => [fn_id g] | _ => [] end.
Proof.
  destruct (ls !! j) as [e|] eqn:He.
  - rewrite (take_S_r _ _ _ He), ids_app. by destruct e.
  - apply lookup_ge_None in He. rewrite !firstn_all2 by lia. by rewrite app_nil_r.
Qed.

(** Over listeners that are calm the loop returns and calls each of them
    once, in the order of the set. *)
Lemma forEach_from_calm st a :
  a ≤ length (listeners st) →
  (∀ j g, j < a → listeners st !! j = Some (Some g) → calm g) →
  ∃ st', forEach_from a 0 st = (Normal tt, st') ∧ listeners st' = listeners st ∧
         broadcasts (calls st') = broadcasts (calls st) ++ ids (take a (listeners st)).
Proof.
  intros Ha Hcalm.
  destruct (forEach_from_inv
    (λ j s, broadcasts (calls s) = broadcasts (calls st) ++ ids (take j (listeners st)))
    (listeners st) a 0 st) as (st' & Hrun & Hls & HQ);
    [done|lia|by rewrite app_nil_r| |by exists st'].
  intros j s Hj Hs HQ. rewrite ids_take_S.
  destruct (listeners st !! j) as [[g|]|] eqn:Hjg; rewrite ?app_nil_r; try done.
  destruct (Hcalm j g ltac:(lia) Hjg (record (Broadcast (fn_id g)) s).2)
    as (s' & Hcall & Hs').
  exists s'. split_and!; [done|by rewrite Hs'|].
  pose proof (call_broadcasts g (record (Broadcast (fn_id g)) s).2) as Hb.
  rewrite Hcall in Hb. simpl in Hb.
  by rewrite Hb, broadcasts_app, HQ, <- app_assoc.
Qed.

Lemma emitChange_calm st :
  (∀ g, g ∈ elements (listeners st) → calm g) →
  ∃ st', emitChange st = (Normal tt, st') ∧ listeners st' = listeners st ∧
         broadcasts (calls st') = broadcasts (calls st) ++ ids (listeners st).
Proof.
  intros Hcalm.
  destruct (forEach_from_calm st (length (listeners st))) as (st' & ? & ? & Hb);
    [done|by eauto using elements_lookup|].
  rewrite firstn_all in Hb. by exists st'.
Qed.

(** ** The snapshot *)

Lemma props_prefix h h' l o : h `prefix_of` h' → h !! l = Some o → props h' l = o.
Proof.
  intros Hp Hl. unfold props. by erewrite prefix_lookup_Some.
Qed.

Lemma merge_snapshot updates st :
  snapshot (merge updates st).2 = spread2 (snapshot st) updates.
Proof. unfold snapshot, props. simpl. by rewrite lookup_app_r, Nat.sub_diag. Qed.

Lemma merge_lookup updates st :
  heap (merge updates st).2 !! data (merge updates st).2 =
  Some (spread2 (snapshot st) updates).
Proof. simpl. by rewrite lookup_app_r, Nat.sub_diag. Qed.

(** Whatever the listeners do, [update] leaves the merged object as the
    snapshot. *)
Lemma update_snapshot updates st :
  snapshot (update updates st).2 = spread2 (snapshot st) updates.
Proof.
  rewrite update_unfold.
  pose proof (emitChange_evolves (merge updates st).2) as E.
  unfold snapshot at 1. rewrite (ev_data _ _ E).
  apply (props_prefix _ _ _ _ (ev_heap _ _ E)), merge_lookup.
Qed.

Lemma spread2_lookup (a b : obj) k :
  spread2 a b !! k = match b !! k with Some v => Some v | None => a !! k end.
Proof.
  unfold spread2. rewrite lookup_union. by destruct (b !! k), (a !! k).
Qed.

(** C1. Shallow merge: after [update(P)] every key of the patch [P] has the
    value [P] gives it in the snapshot, and every other key has the value it
    had in the snapshot before the call. This holds for every state and every
    patch, whether the listeners return, unsubscribe or throw. *)
Theorem update_shallow_merge (st : State) (P : obj) (k : string) :
  snapshot (update P st).2 !! k =
  match P !! k with
  | Some v => Some v
  | None => snapshot st !! k
  end.
Proof. by rewrite update_snapshot, spread2_lookup. Qed.

(** ** Broadcast *)

Lemma run_cons a acts st : run (a :: acts) st = run acts (perform a st).
Proof. reflexivity. Qed.

Lemma run_app acts1 acts2 st : run (acts1 ++ acts2) st = run acts2 (run acts1 st).
Proof. apply foldl_app. Qed.

Lemma update_calm updates st :
  (∀ g, g ∈ elements (listeners st) → calm g) →
  ∃ st', update updates st = (Normal tt, st') ∧ listeners st' = listeners st ∧
         broadcasts (calls st') = broadcasts (calls st) ++ ids (listeners st).
Proof.
  intros Hcalm. rewrite update_unfold.
  apply (emitChange_calm (merge updates st).2 Hcalm).
Qed.

Lemma updates_calm Ps : ∀ st,
  (∀ g, g ∈ elements (listeners st) → calm g) →
  broadcasts (calls (run (DoUpdate <$> Ps) st)) =
  broadcasts (calls st) ++ mjoin (replicate (length Ps) (ids (listeners st))).
Proof.
  induction Ps as [|P Ps IH]; intros st Hcalm; simpl.
  { by rewrite app_nil_r. }
  destruct (update_calm P st Hcalm) as (st' & Hrun & Hls & Hb).
  rewrite Hrun. simpl. rewrite IH, Hls, Hb, <- app_assoc; [done|].
  by rewrite Hls.
Qed.

Lemma subscribe_new listener st :
  Set_has (fn_id listener) (listeners st) = false →
  elements (listeners (subscribe listener st).2) =
  elements (listeners st) ++ [listener].
Proof.
  intros H. simpl. unfold Set_add, elements. rewrite H. by rewrite omap_app.
Qed.


(** ** Selector subscriptions *)

Lemma notifications_app c evs1 evs2 :
  notifications c (evs1 ++ evs2) = notifications c evs1 + notifications c evs2.
Proof. apply count_occ_app. Qed.

Lemma notifications_snoc c evs e :
  notifications c (evs ++ [e]) =
  notifications c evs + (if decide (e = Notify c) then 1 else 0).
Proof.
  by rewrite notifications_app.
Qed.

Lemma quiet_Callback k c n : quiet k c (Callback n []).
Proof. intros st. by exists st. Qed.

Lemma quiet_CheckForChange k c k' selector listener :
  k' ≠ k → fn_id listener ≠ c →
  (∀ h l, ∃ r, selector h (VRef l) = Normal r) →
  quiet k c listener → quiet k c (CheckForChange k' selector listener).
Proof.
  intros Hk Hc Hsel Hl st. rewrite call_CheckForChange.
  destruct (Hsel (heap st) (data st)) as [[fresh v] ->]. simpl.
  destruct (Object_is _ v); [by eexists|].
  destruct (Hl (set_calls (calls st ++ [Notify (fn_id listener)])
                  (set_previousValue (<[k' := v]> (previousValue st))
                     (set_heap (heap st ++ fresh) st))))
    as (st' & Hcall & Hls & Hp & Hn).
  exists st'. split_and!; try done.
  - rewrite Hp. simpl. by apply list_lookup_insert_ne.
  - rewrite Hn. simpl. rewrite notifications_snoc.
    rewrite decide_False; [lia|]. by intros [= ?].
Qed.

Lemma quiet_calm k c g : quiet k c g → calm g.
Proof. intros H st. destruct (H st) as (st' & ? & ? & _). by exists st'. Qed.

(** One broadcast seen from one subscription: if the selector yields [cur]
    when the closure runs, the consumer is called once when [cur] is not the
    memoized value and not at all when it is, and [cur] is memoized. *)
Lemma emitChange_subscribed st i k selector listener prev cur :
  subscribed st i k selector listener →
  (∀ ext, ∃ fresh, selector (heap st ++ ext) (VRef (data st)) = Normal (fresh, cur)) →
  previousValue st !! k = Some prev →
  ∃ st', emitChange st = (Normal tt, st') ∧
         listeners st' = listeners st ∧
         previousValue st' !! k = Some cur ∧
         notifications (fn_id listener) (calls st') =
           notifications (fn_id listener) (calls st) +
           (if Object_is prev cur then 0 else 1).
Proof.
  intros (Hi & HL & Hothers) Hsel Hprev. unfold emitChange.
  set (d := if Object_is prev cur then 0 else 1).
  assert (Hlen : i < length (listeners st)) by by eapply lookup_lt_Some.
  destruct (forEach_from_inv
    (λ j s, data s = data st ∧ heap st `prefix_of` heap s ∧
            previousValue s !! k = Some (if decide (j ≤ i) then prev else cur) ∧
            notifications (fn_id listener) (calls s) =
              notifications (fn_id listener) (calls st) + (if decide (j ≤ i) then 0 else d))
    (listeners st) (length (listeners st)) 0 st) as (st' & Hrun & Hls & HQ);
    [done|lia| | |].
  - rewrite !decide_True by lia. split_and!; [done..|lia].
  - intros j s _ Hs (Hd & Hh & Hp & Hn).
    destruct (decide (j = i)) as [->|Hji].
    + rewrite Hi. rewrite decide_True in Hp by lia.
      rewrite decide_True in Hn by lia. rewrite !decide_False by lia. rewrite call_CheckForChange. simpl.
      destruct Hh as [ext Hh]. destruct (Hsel ext) as [fresh Hcur].
      rewrite Hd, Hh, Hcur, Hp. simpl. subst d.
      destruct (Object_is prev cur) eqn:Hsame.
      * apply Object_is_eq in Hsame as ->. eexists. split; [done|]. simpl.
        split_and!; try done.
        -- by do 2 apply prefix_app_r.
        -- rewrite notifications_snoc, Hn. rewrite decide_False by done. lia.
      * match goal with |- ∃ s', call listener ?s0 = _ ∧ _ =>
          destruct (HL s0) as (s' & Hcall & Hs' & Hp' & Hn');
          pose proof (call_evolves listener s0) as E end.
        rewrite Hcall in E. simpl in *. exists s'. split_and!; try done.
        -- congruence.
        -- by rewrite (ev_data _ _ E).
        -- etrans; [|exact (ev_heap _ _ E)]. simpl.
           by do 2 apply prefix_app_r.
        -- rewrite Hp'. apply list_lookup_insert_eq. by eapply lookup_lt_Some.
        -- rewrite Hn', !notifications_snoc, Hn.
           rewrite decide_False by done. rewrite decide_True by done. lia.
    + destruct (listeners st !! j) as [[g|]|] eqn:Hj.
      * destruct (Hothers j g Hji Hj (record (Broadcast (fn_id g)) s).2)
          as (s' & Hcall & Hs' & Hp' & Hn').
        pose proof (call_evolves g (record (Broadcast (fn_id g)) s).2) as E.
        rewrite Hcall in E. simpl in *. exists s'. split_and!; try done.
        -- congruence.
        -- by rewrite (ev_data _ _ E).
        -- by etrans; [|exact (ev_heap _ _ E)].
        -- rewrite Hp', Hp. by repeat case_decide; try lia.
        -- rewrite Hn', notifications_snoc, Hn.
           rewrite (decide_False (P := _ = Notify _)) by done.
           repeat case_decide; lia.
      * split_and!; try done.
        -- rewrite Hp. by repeat case_decide; try lia.
        -- rewrite Hn. repeat case_decide; lia.
      * split_and!; try done.
        -- rewrite Hp. by repeat case_decide; try lia.
        -- rewrite Hn. repeat case_decide; lia.
  - destruct HQ as (_ & _ & Hp & Hn). simpl in Hp, Hn.
    rewrite decide_False in Hp by lia. rewrite decide_False in Hn by lia.
    by exists st'.
Qed.

Lemma subscribed_listeners st st' i k selector listener :
  listeners st' = listeners st →
  subscribed st i k selector listener → subscribed st' i k selector listener.
Proof. unfold subscribed. by intros ->. Qed.

Lemma update_subscribed updates st i k selector listener prev cur :
  subscribed st i k selector listener →
  (∀ ext, ∃ fresh,
     selector ((heap st ++ [spread2 (snapshot st) updates]) ++ ext)
       (VRef (length (heap st))) = Normal (fresh, cur)) →
  previousValue st !! k = Some prev →
  ∃ st', update updates st = (Normal tt, st') ∧
         subscribed st' i k selector listener ∧
         previousValue st' !! k = Some cur ∧
         notifications (fn_id listener) (calls st') =
           notifications (fn_id listener) (calls st) +
           (if Object_is prev cur then 0 else 1).
Proof.
  intros Hsub Hsel Hprev. rewrite update_unfold.
  destruct (emitChange_subscribed (merge updates st).2 i k selector listener
              prev cur) as (st' & Hrun & Hls & Hp & Hn); [done..|].
  exists st'. split_and!; try done. by apply (subscribed_listeners st).
Qed.

Lemma field_after_merge f updates st ext :
  field f ((heap st ++ [spread2 (snapshot st) updates]) ++ ext)
    (VRef (length (heap st))) =
  Normal ([], read f (spread2 (snapshot st) updates)).
Proof.
  unfold field, props. rewrite <- app_assoc, lookup_app_r by done.
  by rewrite Nat.sub_diag.
Qed.

(** An update seen from a subscription to the field [f]: the consumer is
    called once when the update changes the field and not at all when it
    leaves the field as it is; the subscription stays in place and in sync. *)
Lemma update_field updates st i k f listener :
  subscribed st i k (field f) listener → in_sync st k f →
  ∃ st', update updates st = (Normal tt, st') ∧
         snapshot st' = spread2 (snapshot st) updates ∧
         subscribed st' i k (field f) listener ∧ in_sync st' k f ∧
         notifications (fn_id listener) (calls st') =
           notifications (fn_id listener) (calls st) +
           (if Object_is (read f (snapshot st)) (read f (snapshot st'))
            then 0 else 1).
Proof.
  intros Hsub Hsync.
  destruct (update_subscribed updates st i k (field f) listener
              (read f (snapshot st)) (read f (spread2 (snapshot st) updates)))
    as (st' & Hrun & Hsub' & Hp & Hn); [done| |done|].
  { intros ext. exists []. apply field_after_merge. }
  assert (Hsnap : snapshot st' = spread2 (snapshot st) updates).
  { by rewrite <- (update_snapshot updates st), Hrun. }
  exists st'. unfold in_sync. by rewrite Hsnap.
Qed.

(** An update seen from a subscription to the whole state: the consumer is
    called, since the snapshot is a new object. *)
Lemma update_whole_state updates st i k listener :
  subscribed st i k whole_state listener →
  previousValue st !! k = Some (VRef (data st)) → data st < length (heap st) →
  ∃ st', update updates st = (Normal tt, st') ∧
         subscribed st' i k whole_state listener ∧
         previousValue st' !! k = Some (VRef (data st')) ∧
         data st' < length (heap st') ∧
         notifications (fn_id listener) (calls st') =
           notifications (fn_id listener) (calls st) + 1.
Proof.
  intros Hsub Hsync Hwf.
  destruct (update_subscribed updates st i k whole_state listener
              (VRef (data st)) (VRef (length (heap st))))
    as (st' & Hrun & Hsub' & Hp & Hn); [done| |done|].
  { intros ext. by exists []. }
  pose proof (emitChange_evolves (merge updates st).2) as E.
  rewrite <- update_unfold, Hrun in E. simpl in E.
  exists st'. rewrite (ev_data _ _ E). simpl. split_and!; try done.
  - pose proof (prefix_length _ _ (ev_heap _ _ E)) as Hlen. simpl in Hlen.
    rewrite length_app in Hlen. simpl in Hlen. lia.
  - rewrite Hn. simpl. rewrite bool_decide_eq_false_2 by lia. done.
Qed.

(** C2. Selector-level change suppression. [Object_is] is the same-value
    equality (NaN is NaN, the two zeros differ, references are compared by
    identity). On each raw broadcast a [checkForChange] closure projects the
    latest snapshot and compares the projection with the memoized one: when
    they are the same nothing happens, otherwise the memo is updated and the
    consumer listener called. In particular, for a subscription to a field
    whose memo is the field of the current snapshot, an [update] that leaves
    the field as it is does not call the consumer and an [update] that changes
    it calls the consumer exactly once; the memo then is the field of the new
    snapshot, so this holds for the updates that follow too. *)
Theorem selector_change_suppression :
  (∀ x y, Object_is x y = true ↔ x = y) ∧
  Object_is (VNumber S754_nan) (VNumber S754_nan) = true ∧
  Object_is (VNumber (S754_zero false)) (VNumber (S754_zero true)) = false ∧
  (∀ a b, Object_is (VRef a) (VRef b) = bool_decide (a = b)) ∧
  (∀ k selector listener st fresh currentValue,
     selector (heap st) (VRef (data st)) = Normal (fresh, currentValue) →
     let previous := default VUndefined (previousValue st !! k) in
     let st1 := set_heap (heap st ++ fresh) st in
     call (CheckForChange k selector listener) st =
     if Object_is previous currentValue then (Normal tt, st1)
     else call listener
            (set_calls (calls st ++ [Notify (fn_id listener)])
               (set_previousValue (<[k := currentValue]> (previousValue st)) st1))) ∧
  (∀ st P i k f listener,
     subscribed st i k (field f) listener → in_sync st k f →
     ∃ st', update P st = (Normal tt, st') ∧
            subscribed st' i k (field f) listener ∧ in_sync st' k f ∧
            notifications (fn_id listener) (calls st') =
              notifications (fn_id listener) (calls st) +
              (if Object_is (read f (snapshot st)) (read f (snapshot st'))
               then 0 else 1)).
Proof.
  split_and!; try done.
  - apply Object_is_eq.
  - intros k selector listener st fresh currentValue Hsel.
    rewrite call_CheckForChange, Hsel. reflexivity.
  - intros st P i k f listener Hsub Hsync.
    destruct (update_field P st i k f listener Hsub Hsync)
      as (st' & ? & ? & ? & ? & ?).
    by exists st'.
Qed.


(** ** The read/write hook *)

Lemma setValue_unfold setter newValue st :
  setValue setter newValue st =
  match setter newValue (heap st) (VRef (data st)) with
  | Normal updates => update updates st
  | Throw e => (Throw e, st)
  end.
Proof.
  unfold setValue. rewrite bind_unfold. simpl. rewrite bind_unfold.
  unfold apply_setter. by destruct (setter _ _ _).
Qed.

Lemma setValue_set_field f newValue st :
  setValue (set_field f) newValue st = update {[ f := newValue ]} st.
Proof. by rewrite setValue_unfold. Qed.

Lemma getSnapshot_field f st :
  (es_getSnapshot (external (field f)) st).1 = Normal (read f (snapshot st)).
Proof. reflexivity. Qed.

Lemma read_after_set_field f newValue st :
  read f (snapshot (setValue (set_field f) newValue st).2) = newValue.
Proof.
  rewrite setValue_set_field, update_snapshot. unfold read.
  by rewrite spread2_lookup, lookup_singleton_eq.
Qed.

(** Two writes in a row, seen from a subscription to the field: each write
    that changes the field calls the consumer once. *)
Lemma setValue_twice st i k f listener a b :
  subscribed st i k (field f) listener → in_sync st k f →
  notifications (fn_id listener)
    (calls (setValue (set_field f) b (setValue (set_field f) a st).2).2) =
  notifications (fn_id listener) (calls st) +
  (if Object_is (read f (snapshot st)) a then 0 else 1) +
  (if Object_is a b then 0 else 1).
Proof.
  intros Hsub Hsync.
  pose proof (read_after_set_field f a st) as Ha.
  pose proof (read_after_set_field f b (setValue (set_field f) a st).2) as Hb.
  rewrite !setValue_set_field in *.
  destruct (update_field {[ f := a ]} st i k f listener Hsub Hsync)
    as (st1 & Hrun1 & _ & Hsub1 & Hsync1 & Hn1).
  rewrite Hrun1 in *. simpl in *.
  destruct (update_field {[ f := b ]} st1 i k f listener Hsub1 Hsync1)
    as (st2 & Hrun2 & _ & _ & _ & Hn2).
  rewrite Hrun2 in *. simpl in *. by rewrite Hn2, Hn1, Ha, Hb.
Qed.


(** ** Exceptions *)

Lemma throws_Callback n e rest : throws (Callback n (ThrowStmt e :: rest)) e.
Proof. by intros st. Qed.

(** The loop stops at the first listener that throws: when the loop over
    the first [i] entries returns in [s1] and entry [i] throws from there, the
    exception leaves the loop and entry [i] is the last one called. *)
Lemma emitChange_throws_from st i g e s1 :
  forEach_from i 0 st = (Normal tt, s1) →
  listeners s1 !! i = Some (Some g) →
  (call g (record (Broadcast (fn_id g)) s1).2).1 = Throw e →
  ∃ st', emitChange st = (Throw e, st') ∧
         broadcasts (calls st') = broadcasts (calls s1) ++ [fn_id g].
Proof.
  intros Hrun Hi Hthrow. unfold emitChange.
  pose proof (forEach_from_evolves i 0 st) as E. rewrite Hrun in E.
  apply ev_listeners, deletes_length in E. simpl in E.
  assert (Hlen : i < length (listeners st)).
  { rewrite <- E. by eapply lookup_lt_Some. }
  replace (length (listeners st)) with (i + S (length (listeners st) - S i)) by lia.
  rewrite forEach_from_split, bind_unfold, Hrun by lia.
  change (0 + i) with i. rewrite forEach_from_S, Hi.
  pose proof (call_broadcasts g (record (Broadcast (fn_id g)) s1).2) as Hb'.
  destruct (call g _) as [[[]|e'] st2]; simpl in *; [done|].
  injection Hthrow as ->. exists st2. split; [done|].
  by rewrite Hb', broadcasts_app.
Qed.

(** The same when the entries before [i] are calm and entry [i] throws in
    every state the broadcast can reach. *)
Lemma emitChange_throws_at st i g e :
  listeners st !! i = Some (Some g) →
  (∀ j h, j < i → listeners st !! j = Some (Some h) → calm h) →
  (∀ s, evolves st s → (call g s).1 = Throw e) →
  ∃ st', emitChange st = (Throw e, st') ∧
         broadcasts (calls st') =
           broadcasts (calls st) ++ ids (take (S i) (listeners st)).
Proof.
  intros Hi Hcalm Hg.
  assert (Hlen : i < length (listeners st)) by by eapply lookup_lt_Some.
  destruct (forEach_from_calm st i) as (s1 & Hrun & Hls & Hb); [lia|done|].
  pose proof (forEach_from_evolves i 0 st) as E. rewrite Hrun in E. simpl in E.
  destruct (emitChange_throws_from st i g e s1 Hrun) as (st' & Hrun' & Hb').
  { by rewrite Hls. }
  { apply Hg. etrans; [exact E|apply record_evolves]. }
  exists st'. split; [done|].
  by rewrite Hb', Hb, ids_take_S, Hi, <- app_assoc.
Qed.

(** Over listeners that are quiet about closure [k] the loop returns, calls
    each of them once and leaves the memo of the closure as it is. *)
Lemma forEach_from_quiet st a k c :
  a ≤ length (listeners st) →
  (∀ j g, j < a → listeners st !! j = Some (Some g) → quiet k c g) →
  ∃ st', forEach_from a 0 st = (Normal tt, st') ∧ listeners st' = listeners st ∧
         previousValue st' !! k = previousValue st !! k ∧
         notifications c (calls st') = notifications c (calls st) ∧
         broadcasts (calls st') = broadcasts (calls st) ++ ids (take a (listeners st)).
Proof.
  intros Ha Hquiet.
  destruct (forEach_from_inv
    (λ j s, previousValue s !! k = previousValue st !! k ∧
            notifications c (calls s) = notifications c (calls st) ∧
            broadcasts (calls s) = broadcasts (calls st) ++ ids (take j (listeners st)))
    (listeners st) a 0 st) as (st' & Hrun & Hls & HQ);
    [done|lia|by rewrite app_nil_r| |by exists st'].
  intros j s Hj Hs (Hp & Hn & HQ). rewrite ids_take_S.
  destruct (listeners st !! j) as [[g|]|] eqn:Hjg; rewrite ?app_nil_r; try done.
  destruct (Hquiet j g ltac:(lia) Hjg (record (Broadcast (fn_id g)) s).2)
    as (s' & Hcall & Hs' & Hp' & Hn').
  exists s'. split_and!; [done|by rewrite Hs'|by rewrite Hp'| |].
  - rewrite Hn'. simpl. rewrite notifications_snoc, Hn.
    rewrite decide_False by done. lia.
  - pose proof (call_broadcasts g (record (Broadcast (fn_id g)) s).2) as Hb.
    rewrite Hcall in Hb. simpl in Hb.
    by rewrite Hb, broadcasts_app, HQ, <- app_assoc.
Qed.

(** A closure whose selector throws on the snapshot throws. *)
Lemma call_selector_throws k selector listener e st s :
  (∀ ext, selector (heap st ++ ext) (VRef (data st)) = Throw e) →
  evolves st s →
  (call (CheckForChange k selector listener) s).1 = Throw e.
Proof.
  intros Hsel E. rewrite call_CheckForChange, (ev_data _ _ E).
  destruct (ev_heap _ _ E) as [ext ->]. by rewrite Hsel.
Qed.

(** A closure whose consumer throws on a change throws, once it has
    memoized the new value and called the consumer. *)
Lemma emitChange_consumer_throws st i k selector listener cur e :
  listeners st !! i = Some (Some (CheckForChange k selector listener)) →
  (∀ j h, j < i → listeners st !! j = Some (Some h) → quiet k (fn_id listener) h) →
  (∀ ext, ∃ fresh, selector (heap st ++ ext) (VRef (data st)) = Normal (fresh, cur)) →
  Object_is (default VUndefined (previousValue st !! k)) cur = false →
  (∀ s, evolves st s → (call listener s).1 = Throw e) →
  ∃ st', emitChange st = (Throw e, st') ∧
         broadcasts (calls st') =
           broadcasts (calls st) ++ ids (take (S i) (listeners st)).
Proof.
  intros Hi Hquiet Hsel Hnew Hthrow.
  assert (Hlen : i < length (listeners st)) by by eapply lookup_lt_Some.
  destruct (forEach_from_quiet st i k (fn_id listener))
    as (s1 & Hrun & Hls & Hp & Hn & Hb); [lia|done|].
  pose proof (forEach_from_evolves i 0 st) as E. rewrite Hrun in E. simpl in E.
  destruct (ev_heap _ _ E) as [ext Hext]. destruct (Hsel ext) as [fresh Hcur].
  set (s2 := set_calls
               ((calls s1 ++ [Broadcast (Checker k)]) ++ [Notify (fn_id listener)])
               (set_previousValue (<[k := cur]> (previousValue s1))
                  (set_heap (heap s1 ++ fresh) s1))).
  assert (Hcall : call (CheckForChange k selector listener)
                    (record (Broadcast (Checker k)) s1).2 = call listener s2).
  { rewrite <- Hext, <- (ev_data _ _ E) in Hcur.
    rewrite call_CheckForChange. simpl. by rewrite Hcur, Hp, Hnew. }
  assert (E2 : evolves st s2).
  { etrans; [exact E|]. constructor; simpl; try done.
    - by apply prefix_app_r.
    - apply length_insert.
    - by do 2 apply prefix_app_r. }
  destruct (emitChange_throws_from st i (CheckForChange k selector listener) e s1 Hrun)
    as (st' & Hrun' & Hb').
  { rewrite Hls. exact Hi. }
  { simpl fn_id. rewrite Hcall. by apply Hthrow. }
  exists st'. split; [done|].
  by rewrite Hb', Hb, ids_take_S, Hi, <- app_assoc.
Qed.

Lemma subscribeWithSelector_unfold selector listener st :
  subscribeWithSelector selector listener st =
  match selector (heap st) (VRef (data st)) with
  | Throw e => (Throw e, st)
  | Normal (fresh, initial) =>
      subscribe (CheckForChange (length (previousValue st)) selector listener)
        (set_previousValue (previousValue st ++ [initial])
           (set_heap (heap st ++ fresh) st))
  end.
Proof.
  unfold subscribeWithSelector. rewrite bind_unfold. simpl.
  rewrite bind_unfold. unfold select.
  by destruct (selector _ _) as [[fresh v]|e].
Qed.

(** C6. Exceptions. [subscribe], the unsubscribe functions and
    [getSnapshot] never throw, [subscribeWithSelector] returns when its
    selector does, and [update] returns when the listeners do. When a listener
    throws during the notification pass of an [update] and the listeners
    before it return, [update] throws the same exception: the listeners up to
    the throwing one were called, the ones after it were not, and the snapshot
    is the merged one. This is so whenever the loop over the entries before
    entry [i] returns and the listener at entry [i] throws from there; so it
    is for a listener that throws in the states of this pass (the ones that
    evolve from the merged one), for a [checkForChange] closure whose
    selector throws on the new snapshot, and for a closure whose consumer
    throws when it is told of the change. *)
Theorem update_propagates_exceptions :
  (∀ listener st, (subscribe listener st).1 = Normal (mkUnsubscribe (fn_id listener))) ∧
  (∀ u st, (unsubscribe u st).1 = Normal (Set_has (captured u) (listeners st))) ∧
  (∀ st, (getSnapshot st).1 = Normal (VRef (data st))) ∧
  (∀ selector listener st fresh initial,
     selector (heap st) (VRef (data st)) = Normal (fresh, initial) →
     ∃ u, (subscribeWithSelector selector listener st).1 = Normal u) ∧
  (∀ st P, (∀ g, g ∈ elements (listeners st) → calm g) →
     (update P st).1 = Normal tt) ∧
  (∀ st P i g e s1,
     forEach_from i 0 (merge P st).2 = (Normal tt, s1) →
     listeners s1 !! i = Some (Some g) →
     (call g (record (Broadcast (fn_id g)) s1).2).1 = Throw e →
     ∃ st', update P st = (Throw e, st') ∧
            snapshot st' = spread2 (snapshot st) P ∧
            broadcasts (calls st') = broadcasts (calls s1) ++ [fn_id g]) ∧
  (∀ st P i g e,
     listeners st !! i = Some (Some g) →
     (∀ j h, j < i → listeners st !! j = Some (Some h) → calm h) →
     (∀ s, evolves (merge P st).2 s → (call g s).1 = Throw e) →
     ∃ st', update P st = (Throw e, st') ∧
            snapshot st' = spread2 (snapshot st) P ∧
            broadcasts (calls st') =
              broadcasts (calls st) ++ ids (take (S i) (listeners st))) ∧
  (∀ st P i k selector listener e,
     listeners st !! i = Some (Some (CheckForChange k selector listener)) →
     (∀ j h, j < i → listeners st !! j = Some (Some h) → calm h) →
     (∀ ext, selector (heap (merge P st).2 ++ ext) (VRef (data (merge P st).2)) =
             Throw e) →
     ∃ st', update P st = (Throw e, st') ∧
            snapshot st' = spread2 (snapshot st) P ∧
            broadcasts (calls st') =
              broadcasts (calls st) ++ ids (take (S i) (listeners st))) ∧
  (∀ st P i k selector listener cur e,
     listeners st !! i = Some (Some (CheckForChange k selector listener)) →
     (∀ j h, j < i → listeners st !! j = Some (Some h) →
             quiet k (fn_id listener) h) →
     (∀ ext, ∃ fresh,
        selector (heap (merge P st).2 ++ ext) (VRef (data (merge P st).2)) =
        Normal (fresh, cur)) →
     Object_is (default VUndefined (previousValue st !! k)) cur = false →
     (∀ s, evolves (merge P st).2 s → (call listener s).1 = Throw e) →
     ∃ st', update P st = (Throw e, st') ∧
            snapshot st' = spread2 (snapshot st) P ∧
            broadcasts (calls st') =
              broadcasts (calls st) ++ ids (take (S i) (listeners st))).
Proof.
  assert (Hsnap : ∀ st P e st', emitChange (merge P st).2 = (Throw e, st') →
            snapshot st' = spread2 (snapshot st) P).
  { intros st P e st' Hrun.
    by rewrite <- (update_snapshot P st), update_unfold, Hrun. }
  split_and!; try done.
  - intros selector listener st fresh initial Hsel.
    rewrite subscribeWithSelector_unfold, Hsel. by eexists.
  - intros st P Hcalm. by destruct (update_calm P st Hcalm) as (st' & -> & _).
  - intros st P i g e s1 Hrun Hi Hg.
    destruct (emitChange_throws_from (merge P st).2 i g e s1 Hrun Hi Hg)
      as (st' & Hrun' & Hb).
    exists st'. rewrite update_unfold. split_and!; [done|by eapply Hsnap|done].
  - intros st P i g e Hi Hcalm Hg.
    destruct (emitChange_throws_at (merge P st).2 i g e Hi Hcalm Hg)
      as (st' & Hrun & Hb).
    exists st'. rewrite update_unfold. split_and!; [done|by eapply Hsnap|done].
  - intros st P i k selector listener e Hi Hcalm Hsel.
    destruct (emitChange_throws_at (merge P st).2 i _ e Hi Hcalm)
      as (st' & Hrun & Hb).
    { intros s E. by apply (call_selector_throws k selector listener e (merge P st).2). }
    exists st'. rewrite update_unfold. split_and!; [done|by eapply Hsnap|done].
  - intros st P i k selector listener cur e Hi Hquiet Hsel Hnew Hthrow.
    destruct (emitChange_consumer_throws (merge P st).2 i k selector listener cur e
                Hi Hquiet Hsel Hnew Hthrow) as (st' & Hrun & Hb).
    exists st'. rewrite update_unfold. split_and!; [done|by eapply Hsnap|done].
Qed.

(** ** The states of a store *)

Lemma new_Store_wf h initialData : wf (new_Store h initialData).
Proof.
  constructor; simpl.
  - rewrite length_app. simpl. lia.
  - apply NoDup_nil_2.
Qed.

Lemma evolves_wf st st' : evolves st st' → wf st → wf st'.
Proof.
  intros E [Hd Hl]. constructor.
  - rewrite (ev_data _ _ E). pose proof (prefix_length _ _ (ev_heap _ _ E)). lia.
  - eapply sublist_NoDup; [exact Hl|]. apply deletes_ids, (ev_listeners _ _ E).
Qed.

Lemma subscribe_wf listener st : wf st → wf (subscribe listener st).2.
Proof. intros [Hd Hl]. constructor; simpl; [done|]. by apply Set_add_NoDup. Qed.

Lemma subscribeWithSelector_wf selector listener st :
  wf st → wf (subscribeWithSelector selector listener st).2.
Proof.
  intros Hwf. rewrite subscribeWithSelector_unfold.
  destruct (selector _ _) as [[fresh initial]|e]; [|done].
  apply subscribe_wf. destruct Hwf as [Hd Hl]. constructor; simpl; [|done].
  rewrite length_app. lia.
Qed.

Lemma merge_wf updates st : wf st → wf (merge updates st).2.
Proof.
  intros [Hd Hl]. constructor; simpl; [|done]. rewrite length_app. simpl. lia.
Qed.

Lemma update_wf updates st : wf st → wf (update updates st).2.
Proof.
  intros Hwf. rewrite update_unfold.
  eapply evolves_wf; [apply emitChange_evolves|by apply merge_wf].
Qed.

Lemma perform_wf a st : wf st → wf (perform a st).
Proof.
  destruct a; simpl.
  - apply subscribe_wf.
  - apply subscribeWithSelector_wf.
  - apply evolves_wf, unsubscribe_evolves.
  - apply update_wf.
Qed.

Lemma run_wf acts st : wf st → wf (run acts st).
Proof.
  revert st. induction acts as [|a acts IH]; intros st Hwf; [done|].
  rewrite run_cons. by apply IH, perform_wf.
Qed.

(** The store only ever adds objects to the heap, and its snapshot never
    moves to an older address. *)
Lemma perform_heap a st : heap st `prefix_of` heap (perform a st).
Proof.
  destruct a; simpl; try done.
  - rewrite subscribeWithSelector_unfold.
    destruct (selector _ _) as [[fresh initial]|e]; simpl; [|done].
    by apply prefix_app_r.
  - rewrite update_unfold.
    etrans; [|apply ev_heap, emitChange_evolves]. simpl. by apply prefix_app_r.
Qed.

Lemma run_heap acts st : heap st `prefix_of` heap (run acts st).
Proof.
  revert st. induction acts as [|a acts IH]; intros st; [done|].
  rewrite run_cons. etrans; [apply perform_heap|apply IH].
Qed.

Lemma perform_data a st :
  data st < length (heap st) → data st ≤ data (perform a st).
Proof.
  intros Hd. destruct a; simpl; try done.
  - rewrite subscribeWithSelector_unfold.
    by destruct (selector _ _) as [[fresh initial]|e].
  - rewrite update_unfold, (ev_data _ _ (emitChange_evolves _)). simpl. lia.
Qed.

Lemma run_data acts st : wf st → data st ≤ data (run acts st).
Proof.
  revert st. induction acts as [|a acts IH]; intros st Hwf; [done|].
  rewrite run_cons. etrans; [apply perform_data, Hwf|apply IH, perform_wf, Hwf].
Qed.

Lemma assign_other l k v st :
  l ≠ data st → snapshot (assign l k v st).2 = snapshot st.
Proof.
  intros Hl. unfold snapshot, props. simpl. by rewrite list_lookup_insert_ne.
Qed.

(** C7. The constructor copies: the snapshot of a new store has the
    properties of [initialData] and lives at another address, so that an
    assignment to a property of the object of the caller, at any later time,
    leaves the snapshot of the store as it is. No method of the store writes to
    an object of the heap: a snapshot obtained from the store keeps its
    properties through every later call. *)
Theorem snapshot_never_mutated (h : Heap) (initialData : loc)
    (acts acts' : list action) :
  initialData < length h →
  let st0 := new_Store h initialData in
  let st := run acts st0 in
  snapshot st0 = props h initialData ∧
  data st0 ≠ initialData ∧
  (∀ k v, snapshot (assign initialData k v st).2 = snapshot st) ∧
  props (heap (run acts' st)) (data st) = snapshot st.
Proof.
  intros Hl st0 st.
  assert (Hwf0 : wf st0) by apply new_Store_wf.
  assert (Hwf : wf st) by by apply run_wf.
  assert (Hd : initialData < data st).
  { pose proof (run_data acts st0 Hwf0) as Hd. simpl in Hd. unfold st. lia. }
  split_and!.
  - unfold snapshot, props. simpl. by rewrite lookup_app_r, Nat.sub_diag.
  - simpl. lia.
  - intros k v. apply assign_other. lia.
  - clearbody st.
    destruct (lookup_lt_is_Some_2 (heap st) (data st) (wf_data _ Hwf)) as [o Ho].
    trans o; [eapply props_prefix; [apply run_heap|done]|].
    unfold snapshot, props. by rewrite Ho.
Qed.

(** ** Unsubscription *)

Lemma never_after_nil x : never_after x [].
Proof. intros pre post H. by destruct pre. Qed.

Lemma never_after_singleton x e : never_after x [e].
Proof.
  intros pre post H. destruct pre as [|e' pre]; simplify_eq/=.
  - by apply not_elem_of_nil.
  - by destruct pre.
Qed.

Lemma never_after_app x evs1 evs2 :
  never_after x evs1 → never_after x evs2 →
  (Unsubscribed x ∈ evs1 → Broadcast x ∉ evs2) →
  never_after x (evs1 ++ evs2).
Proof.
  intros H1 H2 H12 pre post Heq.
  apply app_eq_app in Heq as [l [[Hevs1 Hl]|[_ Hevs2]]].
  - destruct l as [|e l]; simpl in Hl.
    + by apply (H2 [] post).
    + injection Hl as <- ->. rewrite not_elem_of_app. split.
      * by apply (H1 pre l).
      * apply H12. rewrite Hevs1, elem_of_app, elem_of_cons. auto.
  - by apply (H2 l post).
Qed.

Lemma respects_refl x st : respects x st st.
Proof.
  intros Hnd. exists []. rewrite app_nil_r. split_and!; try done.
  - intros H. split; [done|apply not_elem_of_nil].
  - by intros ?%elem_of_nil.
  - apply never_after_nil.
Qed.

Lemma respects_trans x st1 st2 st3 :
  respects x st1 st2 → respects x st2 st3 → respects x st1 st3.
Proof.
  intros H12 H23 Hnd1.
  destruct (H12 Hnd1) as (evs1 & Hc1 & Hnd2 & Ha1 & Hu1 & Hn1).
  destruct (H23 Hnd2) as (evs2 & Hc2 & Hnd3 & Ha2 & Hu2 & Hn2).
  exists (evs1 ++ evs2). rewrite Hc2, Hc1, app_assoc. split_and!; try done.
  - intros Habs. destruct (Ha1 Habs) as [Habs2 Hb1].
    destruct (Ha2 Habs2) as [Habs3 Hb2]. split; [done|].
    rewrite not_elem_of_app. done.
  - rewrite elem_of_app. intros [Hin|Hin]; [|by apply Hu2].
    by apply Ha2, Hu1.
  - apply never_after_app; try done. intros Hin. by apply Ha2, Hu1.
Qed.

(** A step that calls nothing and leaves the set as it is. *)
Lemma respects_silent x st st' :
  calls st' = calls st → listeners st' = listeners st → respects x st st'.
Proof.
  intros Hc Hl Hnd. exists []. rewrite Hc, Hl, app_nil_r. split_and!; try done.
  - intros H. split; [done|apply not_elem_of_nil].
  - by intros ?%elem_of_nil.
  - apply never_after_nil.
Qed.

Lemma respects_Notify x c st : respects x st (record (Notify c) st).2.
Proof.
  intros Hnd. exists [Notify c]. split_and!; try done.
  - intros H. split; [done|]. by intros [=]%list_elem_of_singleton.
  - by intros [=]%list_elem_of_singleton.
  - apply never_after_singleton.
Qed.

(** [forEach] calls the functions of the set. *)
Lemma respects_Broadcast x g st :
  Set_has (fn_id g) (listeners st) = true →
  respects x st (record (Broadcast (fn_id g)) st).2.
Proof.
  intros Hg Hnd. exists [Broadcast (fn_id g)]. split_and!; try done.
  - intros H. split; [done|]. intros [= ->]%list_elem_of_singleton. congruence.
  - by intros [=]%list_elem_of_singleton.
  - apply never_after_singleton.
Qed.

Lemma respects_unsubscribe x u st : respects x st (unsubscribe u st).2.
Proof.
  intros Hnd. exists [Unsubscribed (captured u)]. rewrite unsubscribe_unfold. simpl.
  split_and!; try done.
  - by apply Set_delete_NoDup.
  - intros H. split.
    + eapply deletes_has; [apply Set_delete_deletes|done].
    + by intros [=]%list_elem_of_singleton.
  - intros [= ->]%list_elem_of_singleton. by apply Set_delete_has.
  - apply never_after_singleton.
Qed.

Lemma respects_bind {A B} x (m : JS A) (k : A → JS B) st :
  respects x st (m st).2 →
  (∀ a st', respects x st' (k a st').2) →
  respects x st ((m ≫= k) st).2.
Proof.
  intros Hm Hk. rewrite bind_unfold. destruct (m st) as [[a|e] st']; [|done].
  eapply respects_trans; [exact Hm|apply Hk].
Qed.

Lemma respects_run_body x body st : respects x st (run_body body st).2.
Proof.
  revert st. induction body as [|[target|e] body IH]; intros st.
  - apply respects_refl.
  - rewrite run_body_unsubscribe.
    eapply respects_trans; [apply respects_unsubscribe|apply IH].
  - apply respects_refl.
Qed.

Lemma respects_call x f st : respects x st (call f st).2.
Proof.
  revert st. induction f as [n body|k selector listener IH]; intros st.
  { apply respects_run_body. }
  rewrite call_CheckForChange.
  destruct (selector _ _) as [[fresh v]|e]; [|apply respects_refl]. simpl.
  destruct (Object_is _ v); [by apply respects_silent|].
  eapply respects_trans; [|apply IH].
  set (st1 := set_previousValue (<[k := v]> (previousValue st))
                (set_heap (heap st ++ fresh) st)).
  apply (respects_trans x st st1); [by apply respects_silent|].
  apply (respects_Notify x (fn_id listener) st1).
Qed.

Lemma lookup_Set_has ls i g : ls !! i = Some (Some g) → Set_has (fn_id g) ls = true.
Proof.
  intros H. apply Set_has_ids. unfold ids.
  by eapply list_elem_of_fmap_2, elements_lookup.
Qed.

Lemma respects_forEach_from x n i st : respects x st (forEach_from n i st).2.
Proof.
  revert i st. induction n as [|n IH]; intros i st; [apply respects_refl|].
  rewrite forEach_from_S.
  destruct (listeners st !! i) as [[g|]|] eqn:Hi; [|apply IH|apply respects_refl].
  pose proof (respects_call x g (record (Broadcast (fn_id g)) st).2) as Hcall.
  pose proof (respects_Broadcast x g st (lookup_Set_has _ _ _ Hi)) as Hrec.
  destruct (call g _) as [[[]|e] st'].
  - eapply respects_trans; [exact Hrec|]. eapply respects_trans; [exact Hcall|apply IH].
  - eapply respects_trans; [exact Hrec|exact Hcall].
Qed.

Lemma respects_update x updates st : respects x st (update updates st).2.
Proof.
  rewrite update_unfold. eapply respects_trans; [|apply respects_forEach_from].
  by apply respects_silent.
Qed.

Lemma Set_add_other x f ls :
  fn_id f ≠ x → Set_has x (Set_add f ls) = Set_has x ls.
Proof.
  intros Hx. unfold Set_add. destruct (Set_has (fn_id f) ls); [done|].
  unfold Set_has. rewrite existsb_app. simpl.
  rewrite bool_decide_eq_false_2 by done. by rewrite !orb_false_r.
Qed.

Lemma respects_subscribe x listener st :
  fn_id listener ≠ x → respects x st (subscribe listener st).2.
Proof.
  intros Hx Hnd. exists []. simpl. rewrite app_nil_r. split_and!; try done.
  - by apply Set_add_NoDup.
  - rewrite Set_add_other by done. intros H. split; [done|apply not_elem_of_nil].
  - by intros ?%elem_of_nil.
  - apply never_after_nil.
Qed.

Lemma respects_subscribeWithSelector x selector listener st :
  (∀ k, x = Checker k → k < length (previousValue st)) →
  respects x st (subscribeWithSelector selector listener st).2.
Proof.
  intros Hx. rewrite subscribeWithSelector_unfold.
  destruct (selector _ _) as [[fresh initial]|e]; [|apply respects_refl].
  eapply respects_trans; [|apply respects_subscribe].
  - by apply respects_silent.
  - simpl. intros <-. specialize (Hx _ eq_refl). lia.
Qed.

Lemma perform_previousValue a st :
  length (previousValue st) ≤ length (previousValue (perform a st)).
Proof.
  destruct a; simpl; try done.
  - rewrite subscribeWithSelector_unfold.
    destruct (selector _ _) as [[fresh initial]|e]; simpl; [|done].
    rewrite length_app. lia.
  - rewrite update_unfold.
    by rewrite (ev_previousValue _ _ (emitChange_evolves _)).
Qed.

Lemma respects_run x acts st :
  never_resubscribed x acts st → respects x st (run acts st).
Proof.
  revert st. induction acts as [|a acts IH]; intros st [Hsub Hx].
  { apply respects_refl. }
  rewrite run_cons. eapply respects_trans; [|apply IH].
  - destruct a; simpl.
    + apply respects_subscribe, Hsub. by left.
    + by apply respects_subscribeWithSelector.
    + apply respects_unsubscribe.
    + apply respects_update.
  - split.
    + intros f Hf. apply Hsub. by right.
    + intros k Hk. pose proof (perform_previousValue a st).
      specialize (Hx k Hk). lia.
Qed.

Lemma deletes_elements ls ls' g :
  deletes ls ls' → g ∈ elements ls' → g ∈ elements ls.
Proof.
  unfold elements. induction 1 as [|e e' ls ls' [->| ->] _ IH]; simpl; [done|..].
  - destruct e; simpl; [|done]. rewrite !elem_of_cons. intros [?|?]; auto.
  - intros H. destruct e; simpl; [right|]; auto.
Qed.

Lemma returns_Callback n body :
  (∀ e, ThrowStmt e ∉ body) → returns (Callback n body).
Proof.
  intros Hbody st. simpl. revert st.
  induction body as [|[target|e] body IH]; intros st.
  - by exists st.
  - rewrite run_body_unsubscribe. apply IH.
    intros e He. apply (Hbody e). by right.
  - destruct (Hbody e). by left.
Qed.

(** Unsubscriptions during the notification do not make the loop fail. *)
Lemma forEach_from_returns n i st :
  (∀ g, g ∈ elements (listeners st) → returns g) →
  (forEach_from n i st).1 = Normal tt.
Proof.
  revert i st. induction n as [|n IH]; intros i st Hret; [done|].
  rewrite forEach_from_S.
  destruct (listeners st !! i) as [[g|]|] eqn:Hi; [|by apply IH|done].
  destruct (Hret g (elements_lookup _ _ _ Hi) (record (Broadcast (fn_id g)) st).2)
    as (st' & Hcall).
  pose proof (call_evolves g (record (Broadcast (fn_id g)) st).2) as E.
  rewrite Hcall in *. simpl in E. apply IH. intros g' Hg'. apply Hret.
  eapply deletes_elements; [apply (ev_listeners _ _ E)|done].
Qed.

Lemma update_returns updates st :
  (∀ g, g ∈ elements (listeners st) → returns g) →
  (update updates st).1 = Normal tt.
Proof. intros H. rewrite update_unfold. by apply forEach_from_returns. Qed.

Lemma unsubscribe_twice u st :
  NoDup (ids (listeners st)) →
  listeners (unsubscribe u (unsubscribe u st).2).2 = listeners (unsubscribe u st).2.
Proof.
  intros Hnd. rewrite !unsubscribe_unfold. simpl.
  by apply Set_delete_absent, Set_delete_has.
Qed.

(** C5. Unsubscription. The function [subscribe] returns captures the
    listener and never throws. Calling it twice leaves the store as calling it
    once does. After a call of it, no later [update] of a client that does not
    register the listener again has [forEach] call the listener; and at any
    time, within a notification too, [forEach] does not call the listener after
    an unsubscribe function of it was called. An [update] whose listeners
    return still returns when they unsubscribe listeners during the
    notification. *)
Theorem unsubscribe_semantics (listener : fn) (st0 st : State)
    (acts : list action) :
  wf st → never_resubscribed (fn_id listener) acts st →
  ∃ u, (subscribe listener st0).1 = Normal u ∧
    captured u = fn_id listener ∧
    (let st1 := (unsubscribe u st).2 in
     let st2 := (unsubscribe u st1).2 in
     listeners st2 = listeners st1 ∧ data st2 = data st1 ∧
     heap st2 = heap st1 ∧ previousValue st2 = previousValue st1 ∧
     (unsubscribe u st1).1 = Normal false) ∧
    (∃ evs, calls (run acts (unsubscribe u st).2) = calls (unsubscribe u st).2 ++ evs ∧
            Broadcast (fn_id listener) ∉ evs) ∧
    (∃ evs, calls (run acts st) = calls st ++ evs ∧
            never_after (fn_id listener) evs) ∧
    (∀ P, (∀ g, g ∈ elements (listeners st) → returns g) →
          (update P st).1 = Normal tt).
Proof.
  intros [Hd Hnd] Hnever. exists (mkUnsubscribe (fn_id listener)).
  set (u := mkUnsubscribe (fn_id listener)).
  assert (Habs : Set_has (fn_id listener) (listeners (unsubscribe u st).2) = false).
  { rewrite unsubscribe_unfold. by apply Set_delete_has. }
  cbv zeta. split_and!; try done.
  - by apply unsubscribe_twice.
  - rewrite (unsubscribe_unfold u (unsubscribe u st).2). cbn [fst].
    change (captured u) with (fn_id listener). by rewrite Habs.
  - destruct (respects_run (fn_id listener) acts (unsubscribe u st).2)
      as (evs & Hc & _ & Ha & _); [done|by apply Set_delete_NoDup|].
    exists evs. split; [done|]. by apply Ha.
  - destruct (respects_run (fn_id listener) acts st Hnever Hnd)
      as (evs & Hc & _ & _ & _ & Hn).
    by exists evs.
  - intros P. apply update_returns.
Qed.

(** ** The set of listeners has no duplicates *)

Lemma subscribe_twice listener st :
  listeners (subscribe listener (subscribe listener st).2).2 =
  listeners (subscribe listener st).2.
Proof.
  simpl. unfold Set_add at 1.
  assert (Set_has (fn_id listener) (Set_add listener (listeners st)) = true) as ->;
    [|done].
  unfold Set_add. destruct (Set_has _ (listeners st)) eqn:E; [done|].
  unfold Set_has. rewrite existsb_app. simpl.
  rewrite bool_decide_eq_true_2 by done. apply orb_true_r.
Qed.

Lemma subscribe_has listener st :
  fn_id listener ∈ ids (listeners (subscribe listener st).2).
Proof.
  simpl. rewrite ids_Set_add. destruct (Set_has _ _) eqn:E.
  - by apply Set_has_ids.
  - rewrite elem_of_app, list_elem_of_singleton. auto.
Qed.

Lemma NoDup_count (l : list fid) x :
  NoDup l → x ∈ l → count_occ fid_eq_dec l x = 1.
Proof.
  intros Hnd Hx. apply NoDup_ListNoDup in Hnd.
  apply (proj1 (NoDup_count_occ' fid_eq_dec _) Hnd). by apply list_elem_of_In.
Qed.


(** ** [subscribeWithSelector] is [subscribe] of the change detection *)

Lemma Object_is_decide x y : Object_is x y = bool_decide (x = y).
Proof.
  destruct (Object_is x y) eqn:E; symmetry.
  - by apply bool_decide_eq_true, Object_is_eq.
  - by apply bool_decide_eq_false, Object_is_neq.
Qed.

Lemma call_adapter_broadcast k selector listener st :
  call (CheckForChange k selector listener) st =
  adapter_broadcast k selector listener st.
Proof.
  simpl. unfold adapter_broadcast. rewrite !bind_unfold. simpl.
  rewrite !bind_unfold. destruct (select _ _ _) as [[v|e] st1]; [|done].
  rewrite !bind_unfold. simpl. by rewrite Object_is_decide.
Qed.

Lemma subscribeWithSelector_refines selector listener st :
  subscribeWithSelector selector listener st =
  subscribeWithSelector_spec selector listener st.
Proof.
  rewrite subscribeWithSelector_unfold.
  unfold subscribeWithSelector_spec, adapter.
  rewrite !bind_unfold. simpl. rewrite !bind_unfold. unfold select.
  by destruct (selector _ _) as [[fresh v]|e].
Qed.

Lemma elements_app ls1 ls2 : elements (ls1 ++ ls2) = elements ls1 ++ elements ls2.
Proof. apply omap_app. Qed.

(** C9. [subscribeWithSelector] is a derived operation: it is [subscribe]
    applied to the change detection of section 4.2 of the specification made
    for the selector and the listener, and the closure it registers does on a
    broadcast what that section says. When the selector returns, it returns
    the unsubscribe function of that one call of [subscribe], the closure is
    the one element it adds to the set, and apart from the closure's memo and
    what the selector allocated the state is as before; when the selector
    throws, nothing is registered. *)
Theorem subscribeWithSelector_derived :
  (∀ selector listener st,
     subscribeWithSelector selector listener st =
     subscribeWithSelector_spec selector listener st) ∧
  (∀ k selector listener st,
     call (CheckForChange k selector listener) st =
     adapter_broadcast k selector listener st) ∧
  (∀ selector listener st fresh initial,
     selector (heap st) (VRef (data st)) = Normal (fresh, initial) →
     Set_has (Checker (length (previousValue st))) (listeners st) = false →
     let checkForChange :=
       CheckForChange (length (previousValue st)) selector listener in
     let st' := (subscribeWithSelector selector listener st).2 in
     (subscribeWithSelector selector listener st).1 =
       (subscribe checkForChange st).1 ∧
     listeners st' = listeners (subscribe checkForChange st).2 ∧
     elements (listeners st') = elements (listeners st) ++ [checkForChange] ∧
     previousValue st' = previousValue st ++ [initial] ∧
     heap st' = heap st ++ fresh ∧
     data st' = data st ∧ calls st' = calls st) ∧
  (∀ selector listener st e,
     selector (heap st) (VRef (data st)) = Throw e →
     subscribeWithSelector selector listener st = (Throw e, st)).
Proof.
  split_and!.
  - apply subscribeWithSelector_refines.
  - apply call_adapter_broadcast.
  - intros selector listener st fresh initial Hsel Hfresh. cbv zeta.
    rewrite subscribeWithSelector_unfold, Hsel. simpl. split_and!; try done.
    unfold Set_add. simpl. rewrite Hfresh. by rewrite elements_app.
  - intros selector listener st e Hsel.
    by rewrite subscribeWithSelector_unfold, Hsel.
Qed.

(** The closure [subscribeWithSelector] makes is new in every state a client
    reaches by registering callbacks of its own. *)
Lemma evolves_closures_created st st' :
  evolves st st' → closures_created st → closures_created st'.
Proof.
  intros E H k Hk. rewrite (ev_previousValue _ _ E). apply H.
  eapply elem_of_sublist; [done|apply deletes_ids, (ev_listeners _ _ E)].
Qed.

Lemma perform_closures_created a st :
  (∀ listener, a = DoSubscribe listener → ∃ n body, listener = Callback n body) →
  closures_created st → closures_created (perform a st).
Proof.
  intros Ha H. destruct a as [listener|selector listener|u|updates]; simpl.
  - destruct (Ha listener eq_refl) as (n & body & ->).
    intros k. simpl. rewrite ids_Set_add. destruct (Set_has _ _); [apply H|].
    rewrite elem_of_app, list_elem_of_singleton. intros [?|[=]]. by apply H.
  - rewrite subscribeWithSelector_unfold.
    destruct (selector _ _) as [[fresh initial]|e]; [|done].
    intros k. simpl. rewrite ids_Set_add, length_app. simpl.
    destruct (Set_has _ _).
    + intros Hk. specialize (H k Hk). lia.
    + rewrite elem_of_app, list_elem_of_singleton.
      intros [Hk|[= ->]]; [specialize (H k Hk)|]; lia.
  - eapply evolves_closures_created; [apply unsubscribe_evolves|done].
  - rewrite update_unfold.
    eapply evolves_closures_created; [apply emitChange_evolves|done].
Qed.

Lemma closures_created_fresh st :
  closures_created st →
  Set_has (Checker (length (previousValue st))) (listeners st) = false.
Proof.
  intros H. apply Set_has_false_ids. intros Hk. specialize (H _ Hk). lia.
Qed.

Lemma run_closures_created acts h initialData :
  (∀ listener, DoSubscribe listener ∈ acts → ∃ n body, listener = Callback n body) →
  closures_created (run acts (new_Store h initialData)).
Proof.
  induction acts as [|a acts IH] using rev_ind; intros Hacts.
  { intros k Hk. by apply elem_of_nil in Hk. }
  rewrite run_app. simpl. apply perform_closures_created.
  - intros listener ->. apply Hacts. rewrite elem_of_app, list_elem_of_singleton. auto.
  - apply IH. intros listener Hl. apply Hacts. rewrite elem_of_app. auto.
Qed.

(** ** The counter of the examples *)

Lemma field_returns f h l : ∃ r, field f h (VRef l) = Normal r.
Proof. by eexists. Defined.

Lemma watched_wf : wf watched.
Proof. apply run_wf, new_Store_wf. Defined.

Lemma watched_count : subscribed watched 0 0 (field "count") (onStoreChange 0).
Proof.
  split_and!.
  - reflexivity.
  - apply quiet_Callback.
  - intros [|[|j]] g Hj Hg; [done| |done]. injection Hg as <-.
    apply quiet_CheckForChange;
      [done|done|apply field_returns|apply quiet_Callback].
Defined.

Lemma watched_step : subscribed watched 1 1 (field "step") (onStoreChange 1).
Proof.
  split_and!.
  - reflexivity.
  - apply quiet_Callback.
  - intros [|[|j]] g Hj Hg; [|done|done]. injection Hg as <-.
    apply quiet_CheckForChange;
      [done|done|apply field_returns|apply quiet_Callback].
Defined.

Lemma watched_calm g : g ∈ elements (listeners watched) → calm g.
Proof.
  intros Hg. apply elem_of_cons in Hg as [->|Hg];
    [|apply list_elem_of_singleton in Hg as ->];
    (apply calm_CheckForChange; [apply field_returns|apply calm_Callback]).
Defined.

Lemma observed_whole_state : subscribed observed 0 0 whole_state (onStoreChange 0).
Proof.
  split_and!.
  - reflexivity.
  - apply quiet_Callback.
  - by intros [|j] g Hj Hg.
Defined.

(** The scenario of the specification: from [{count: 0, step: 1}],
    [update({count: 3})] calls the subscriber to [count] and not the one to
    [step]; [update({step: 1})] then calls neither, and the snapshot is
    [{count: 3, step: 1}]. *)
Example counter_scenario :
  let st1 := (update {[ "count" := number 3 ]} watched).2 in
  let st2 := (update {[ "step" := number 1 ]} st1).2 in
  calls st1 = [Broadcast (Checker 0); Notify (User 0); Broadcast (Checker 1)] ∧
  calls st2 = calls st1 ++ [Broadcast (Checker 0); Broadcast (Checker 1)] ∧
  snapshot st2 = {[ "count" := number 3; "step" := number 1 ]}.
Proof. by vm_compute. Qed.

(** A write of the value the field has already is not a change: from a
    counter at [3], [setValue(3)] then [setValue(7)] notify once. *)
Example setValue_same_value :
  let st := (update {[ "count" := number 3 ]} watched).2 in
  let st7 := (useCount.2 (number 7) (useCount.2 (number 3) st).2).2 in
  notifications (User 0) (calls st7) = notifications (User 0) (calls st) + 1.
Proof. by vm_compute. Qed.

(** A listener that unsubscribes the next one: the next one is not called,
    and the update returns. *)
Example unsubscribe_during_notification :
  let st := run [DoSubscribe (Callback 0 [CallUnsubscribe (User 1)]);
                 DoSubscribe (onStoreChange 1);
                 DoSubscribe (onStoreChange 2)] counterStore in
  (update ∅ st).1 = Normal tt ∧
  calls (update ∅ st).2 =
    [Broadcast (User 0); Unsubscribed (User 1); Broadcast (User 2)].
Proof. by vm_compute. Qed.

(** ** The theorems at the counter *)

Lemma selector_change_suppression_witness :
  field "count" (heap watched) (VRef (data watched)) = Normal ([], number 0) ∧
  subscribed watched 0 0 (field "count") (onStoreChange 0) ∧
  in_sync watched 0 "count" ∧
  call (CheckForChange 0 (field "count") (onStoreChange 0)) watched =
    (Normal tt, set_heap (heap watched ++ []) watched) ∧
  ∃ st', update {[ "count" := number 3 ]} watched = (Normal tt, st') ∧
         subscribed st' 0 0 (field "count") (onStoreChange 0) ∧
         in_sync st' 0 "count" ∧
         notifications (User 0) (calls st') =
           notifications (User 0) (calls watched) +
           (if Object_is (read "count" (snapshot watched))
                 (read "count" (snapshot st')) then 0 else 1).
Proof.
  destruct selector_change_suppression as (_ & _ & _ & _ & Hcall & Hupdate).
  assert (Hsel : field "count" (heap watched) (VRef (data watched)) =
                 Normal ([], number 0)) by by vm_compute.
  assert (Hsync : in_sync watched 0 "count") by by vm_compute.
  split_and!; [done|apply watched_count|done| |].
  - by rewrite (Hcall 0 (field "count") (onStoreChange 0) watched [] (number 0) Hsel).
  - apply (Hupdate watched _ 0 0 "count" (onStoreChange 0) watched_count Hsync).
Defined.



Lemma unsubscribe_semantics_witness :
  let acts := [DoUpdate ∅; DoSubscribe (onStoreChange 6); DoUpdate ∅] in
  wf watched ∧ never_resubscribed (Checker 0) acts watched ∧
  ∃ u, (subscribe (CheckForChange 0 (field "count") (onStoreChange 0)) counterStore).1
         = Normal u ∧
    captured u = Checker 0 ∧
    (let st1 := (unsubscribe u watched).2 in
     let st2 := (unsubscribe u st1).2 in
     listeners st2 = listeners st1 ∧ data st2 = data st1 ∧
     heap st2 = heap st1 ∧ previousValue st2 = previousValue st1 ∧
     (unsubscribe u st1).1 = Normal false) ∧
    (∃ evs, calls (run acts (unsubscribe u watched).2) =
              calls (unsubscribe u watched).2 ++ evs ∧
            Broadcast (Checker 0) ∉ evs) ∧
    (∃ evs, calls (run acts watched) = calls watched ++ evs ∧
            never_after (Checker 0) evs) ∧
    (∀ P, (∀ g, g ∈ elements (listeners watched) → returns g) →
          (update P watched).1 = Normal tt).
Proof.
  intros acts.
  assert (Hnever : never_resubscribed (Checker 0) acts watched).
  { split.
    - intros listener Hl.
      repeat (apply elem_of_cons in Hl as [Hl|Hl]; [by simplify_eq|]).
      by apply elem_of_nil in Hl.
    - intros k [= <-]. simpl. lia. }
  split_and!; [apply watched_wf|done|].
  apply (unsubscribe_semantics (CheckForChange 0 (field "count") (onStoreChange 0))
           counterStore watched acts watched_wf Hnever).
Defined.

Lemma update_propagates_exceptions_witness :
  let logout : obj := {[ "user" := VNull ]} in
  let three : obj := {[ "count" := number 3 ]} in
  (listeners crowded !! 1 = Some (Some failing) ∧
   (∀ j h, j < 1 → listeners crowded !! j = Some (Some h) → calm h) ∧
   (∀ s, evolves (merge three crowded).2 s →
         (call failing s).1 = Throw (VString "boom")) ∧
   ∃ st', update three crowded = (Throw (VString "boom"), st') ∧
          snapshot st' = spread2 (snapshot crowded) three ∧
          broadcasts (calls st') =
            broadcasts (calls crowded) ++ ids (take 2 (listeners crowded))) ∧
  (listeners profile !! 1 =
     Some (Some (CheckForChange 0 (nested_field "user" "name") (onStoreChange 1))) ∧
   (∀ j h, j < 1 → listeners profile !! j = Some (Some h) → calm h) ∧
   (∀ ext, nested_field "user" "name" (heap (merge logout profile).2 ++ ext)
             (VRef (data (merge logout profile).2)) = Throw (VString "TypeError")) ∧
   previousValue profile !! 0 = Some (VString "Ann") ∧
   ∃ st', update logout profile = (Throw (VString "TypeError"), st') ∧
          snapshot st' = spread2 (snapshot profile) logout ∧
          broadcasts (calls st') = broadcasts (calls profile) ++ [User 0; Checker 0]) ∧
  (let s1 := (forEach_from 1 0 (merge logout profile).2).2 in
   let g := CheckForChange 0 (nested_field "user" "name") (onStoreChange 1) in
   forEach_from 1 0 (merge logout profile).2 = (Normal tt, s1) ∧
   listeners s1 !! 1 = Some (Some g) ∧
   (call g (record (Broadcast (fn_id g)) s1).2).1 = Throw (VString "TypeError") ∧
   ∃ st', update logout profile = (Throw (VString "TypeError"), st') ∧
          snapshot st' = spread2 (snapshot profile) logout ∧
          broadcasts (calls st') = broadcasts (calls s1) ++ [Checker 0]) ∧
  (listeners alarmed !! 1 = Some (Some (CheckForChange 0 (field "count") failing)) ∧
   (∀ j h, j < 1 → listeners alarmed !! j = Some (Some h) →
           quiet 0 (fn_id failing) h) ∧
   (∀ ext, ∃ fresh,
      field "count" (heap (merge three alarmed).2 ++ ext)
        (VRef (data (merge three alarmed).2)) = Normal (fresh, number 3)) ∧
   Object_is (default VUndefined (previousValue alarmed !! 0)) (number 3) = false ∧
   ∃ st', update three alarmed = (Throw (VString "boom"), st') ∧
          snapshot st' = spread2 (snapshot alarmed) three ∧
          broadcasts (calls st') = broadcasts (calls alarmed) ++ [User 0; Checker 0]).
Proof.
  intros logout three.
  destruct update_propagates_exceptions
    as (_ & _ & _ & _ & _ & Hfirst & Hlistener & Hselector & Hconsumer).
  assert (Hcalm : ∀ (ls : list (option fn)) j h,
            ls !! 0 = Some (Some (onStoreChange 0)) →
            j < 1 → ls !! j = Some (Some h) → calm h).
  { intros ls [|j] h H0 Hj Hh; [|lia]. rewrite H0 in Hh. injection Hh as <-.
    apply calm_Callback. }
  assert (Hquiet : ∀ j h, j < 1 → listeners alarmed !! j = Some (Some h) →
                          quiet 0 (fn_id failing) h).
  { intros [|j] h Hj Hh; [|lia]. injection Hh as <-. apply quiet_Callback. }
  assert (Hboom : ∀ P st s, evolves (merge P st).2 s →
                            (call failing s).1 = Throw (VString "boom")).
  { intros P st s _. apply throws_Callback. }
  assert (Hlogout : ∀ ext,
            nested_field "user" "name" (heap (merge logout profile).2 ++ ext)
              (VRef (data (merge logout profile).2)) = Throw (VString "TypeError")).
  { intros ext. by vm_compute. }
  assert (Hthree : ∀ ext, ∃ fresh,
            field "count" (heap (merge three alarmed).2 ++ ext)
              (VRef (data (merge three alarmed).2)) = Normal (fresh, number 3)).
  { intros ext. exists []. by vm_compute. }
  assert (Hnew : Object_is (default VUndefined (previousValue alarmed !! 0))
                   (number 3) = false) by by vm_compute.
  cbv zeta. split_and!;
    first
      [ apply (Hfirst profile logout 1
                 (CheckForChange 0 (nested_field "user" "name") (onStoreChange 1))
                 (VString "TypeError") _ eq_refl eq_refl eq_refl)
      | exact Hlogout | exact Hthree | exact Hquiet | exact Hnew | apply Hboom
      | exact (λ j h, Hcalm (listeners crowded) j h eq_refl)
      | exact (λ j h, Hcalm (listeners profile) j h eq_refl)
      | apply (Hlistener crowded three 1 failing (VString "boom") eq_refl
                 (λ j h, Hcalm (listeners crowded) j h eq_refl) (Hboom three crowded))
      | apply (Hselector profile logout 1 0 (nested_field "user" "name")
                 (onStoreChange 1) (VString "TypeError") eq_refl
                 (λ j h, Hcalm (listeners profile) j h eq_refl) Hlogout)
      | apply (Hconsumer alarmed three 1 0 (field "count") failing (number 3)
                 (VString "boom") eq_refl Hquiet Hthree Hnew (Hboom three alarmed))
      | done ].
Defined.

Lemma snapshot_never_mutated_witness :
  let h := [counterState] in
  let acts := [DoUpdate {[ "count" := number 3 ]}] in
  let acts' := [DoUpdate {[ "count" := number 7 ]}; DoUpdate ∅] in
  0 < length h ∧
  let st0 := new_Store h 0 in
  let st := run acts st0 in
  snapshot st0 = props h 0 ∧
  data st0 ≠ 0 ∧
  (∀ k v, snapshot (assign 0 k v st).2 = snapshot st) ∧
  props (heap (run acts' st)) (data st) = snapshot st.
Proof.
  intros h acts acts'.
  assert (Hl : 0 < length h) by (simpl; lia).
  split; [done|]. apply (snapshot_never_mutated h 0 acts acts' Hl).
Defined.


Lemma subscribeWithSelector_derived_witness :
  field "count" (heap counterStore) (VRef (data counterStore)) =
    Normal ([], number 0) ∧
  Set_has (Checker (length (previousValue counterStore))) (listeners counterStore)
    = false ∧
  let checkForChange := CheckForChange 0 (field "count") (onStoreChange 0) in
  let st' := (subscribeWithSelector (field "count") (onStoreChange 0) counterStore).2 in
  (subscribeWithSelector (field "count") (onStoreChange 0) counterStore).1 =
    (subscribe checkForChange counterStore).1 ∧
  listeners st' = listeners (subscribe checkForChange counterStore).2 ∧
  elements (listeners st') = elements (listeners counterStore) ++ [checkForChange] ∧
  previousValue st' = previousValue counterStore ++ [number 0] ∧
  heap st' = heap counterStore ++ [] ∧
  data st' = data counterStore ∧ calls st' = calls counterStore.
Proof.
  destruct subscribeWithSelector_derived as (_ & _ & Hreg & _).
  assert (Hsel : field "count" (heap counterStore) (VRef (data counterStore)) =
                 Normal ([], number 0)) by by vm_compute.
  split_and!; [done|done|].
  apply (Hreg (field "count") (onStoreChange 0) counterStore [] (number 0) Hsel eq_refl).
Defined.


(** * More of the code *)

(** ** [getSnapshot] *)

Lemma perform_data_no_update a st :
  (∀ P, a ≠ DoUpdate P) → data (perform a st) = data st.
Proof.
  intros Ha. destruct a as [listener|selector listener|u|updates]; simpl; try done.
  - rewrite subscribeWithSelector_unfold.
    by destruct (selector _ _) as [[fresh initial]|e].
  - by destruct (Ha updates).
Qed.

Lemma run_data_no_update acts st :
  (∀ P, DoUpdate P ∉ acts) → data (run acts st) = data st.
Proof.
  revert st. induction acts as [|a acts IH]; intros st Hacts; [done|].
  rewrite run_cons, IH.
  - apply perform_data_no_update. intros P ->. apply (Hacts P). by left.
  - intros P HP. apply (Hacts P). by right.
Qed.

Lemma select_projects selector p st :
  projects selector p →
  (select selector (VRef (data st)) st).1 = Normal (p (snapshot st)).
Proof. intros Hp. unfold select. by rewrite Hp. Qed.

Lemma projects_reads selector p : projects selector p → reads selector (λ _, p).
Proof. intros Hp h l. apply Hp. Qed.

Lemma reads_whole_state : reads whole_state (λ l _, VRef l).
Proof. by intros h l. Qed.

Lemma getSnapshot_reads selector p st :
  reads selector p →
  (es_getSnapshot (createSelectorHook selector) st).1 = Normal (selected p st).
Proof.
  intros Hp. simpl. rewrite bind_unfold. simpl. unfold select. by rewrite Hp.
Qed.

Lemma snapshot_no_update acts st :
  wf st → (∀ P, DoUpdate P ∉ acts) → snapshot (run acts st) = snapshot st.
Proof.
  intros Hwf Hacts. unfold snapshot at 1. rewrite run_data_no_update by done.
  destruct (lookup_lt_is_Some_2 (heap st) (data st) (wf_data _ Hwf)) as [o Ho].
  rewrite (props_prefix _ _ _ o (run_heap acts st) Ho).
  unfold snapshot, props. by rewrite Ho.
Qed.

(** X1. [getSnapshot] reads and changes nothing, and what it returns is
    stable between updates: through any calls of [subscribe],
    [subscribeWithSelector] and unsubscribe functions it returns the same
    reference, to an object with the same properties, and a hook whose selector
    allocates nothing and returns a function of the state it is given (its
    address and its properties) reads the same value. *)
Theorem getSnapshot_stable_between_updates (acts : list action) (st : State) :
  wf st → (∀ P, DoUpdate P ∉ acts) →
  getSnapshot st = (Normal (VRef (data st)), st) ∧
  (getSnapshot (run acts st)).1 = (getSnapshot st).1 ∧
  snapshot (run acts st) = snapshot st ∧
  ∀ selector p, reads selector p →
    (es_getSnapshot (createSelectorHook selector) (run acts st)).1 =
    (es_getSnapshot (createSelectorHook selector) st).1.
Proof.
  intros Hwf Hacts. split_and!; [done| | |].
  - simpl. by rewrite run_data_no_update.
  - by apply snapshot_no_update.
  - intros selector p Hp. rewrite !(getSnapshot_reads selector p) by done.
    unfold selected. by rewrite snapshot_no_update, run_data_no_update.
Qed.

Lemma new_Store_from_wf h initialData : wf (new_Store_from h initialData).
Proof.
  constructor; simpl.
  - rewrite length_app. simpl. lia.
  - apply NoDup_nil_2.
Qed.

Lemma spread2_empty_l (P : obj) : spread2 ∅ P = P.
Proof. unfold spread2. apply (right_id_L ∅ (∪)). Qed.

(** X2. [getSnapshot] never returns [null]: whatever value the store is
    constructed from, [null] included, and whatever is called on it afterwards,
    [getSnapshot] returns a reference to an object of the heap. A store
    constructed from [null], [undefined], a boolean or a number starts from the
    empty object, and its first [update] leaves exactly the patch. *)
Theorem getSnapshot_is_an_object (h : Heap) (initialData : value)
    (acts : list action) (P : obj) :
  let st0 := new_Store_from h initialData in
  let st := run acts st0 in
  (∃ l o, (getSnapshot st).1 = Normal (VRef l) ∧ heap st !! l = Some o) ∧
  (match initialData with
   | VRef l => st0 = new_Store h l
   | VString s => snapshot st0 = chars s
   | _ => snapshot st0 = ∅ ∧ snapshot (update P st0).2 = P
   end).
Proof.
  intros st0 st. split.
  - assert (Hwf : wf st) by apply run_wf, new_Store_from_wf.
    destruct (lookup_lt_is_Some_2 (heap st) (data st) (wf_data _ Hwf)) as [o Ho].
    by exists (data st), o.
  - assert (Hsnap : snapshot st0 = spread h initialData).
    { unfold snapshot, props. simpl. by rewrite lookup_app_r, Nat.sub_diag. }
    destruct initialData; try done;
      (split; [done|]; by rewrite update_snapshot, Hsnap, spread2_empty_l).
Qed.

(** ** [update] after [update] *)

Lemma updates_snapshot Ps : ∀ st,
  snapshot (run (DoUpdate <$> Ps) st) = foldl spread2 (snapshot st) Ps.
Proof.
  induction Ps as [|P Ps IH]; intros st; [done|].
  rewrite fmap_cons, run_cons. simpl. by rewrite IH, update_snapshot.
Qed.

(** X3. Updates compose by overlaying their patches: two updates leave the
    properties one update with the second patch laid over the first leaves, the
    same patch twice leaves what it leaves once, the empty patch leaves the
    properties as they are, and a sequence of updates leaves the fold of the
    patches over the snapshot. (The snapshot is a new object after each of
    them all the same.) *)
Theorem update_composes (st : State) (P1 P2 : obj) (Ps : list obj) :
  snapshot (update P2 (update P1 st).2).2 = snapshot (update (spread2 P1 P2) st).2 ∧
  snapshot (update P1 (update P1 st).2).2 = snapshot (update P1 st).2 ∧
  snapshot (update ∅ st).2 = snapshot st ∧
  snapshot (run (DoUpdate <$> Ps) st) = foldl spread2 (snapshot st) Ps.
Proof.
  rewrite !update_snapshot. unfold spread2. split_and!.
  - by rewrite (assoc_L (∪)).
  - by rewrite (assoc_L (∪)), (idemp_L (∪)).
  - apply (left_id_L ∅ (∪)).
  - apply updates_snapshot.
Qed.

(** ** [subscribe] and unsubscribe functions, one after the other *)

Lemma filter_ids_absent x ls :
  x ∉ ids ls → filter (λ g, fn_id g ≠ x) (elements ls) = elements ls.
Proof.
  unfold ids. induction (elements ls) as [|g l IH]; [done|].
  rewrite fmap_cons, not_elem_of_cons. intros [Hg Hl].
  rewrite filter_cons_True by done. f_equal. by apply IH.
Qed.

Lemma elements_Set_delete x ls :
  NoDup (ids ls) →
  elements (Set_delete x ls) = filter (λ g, fn_id g ≠ x) (elements ls).
Proof.
  induction ls as [|[f|] ls IH]; simpl; [done|..].
  - change (ids (Some f :: ls)) with (fn_id f :: ids ls).
    rewrite NoDup_cons. intros [Hf Hls].
    change (elements (Some f :: ls)) with (f :: elements ls).
    case_bool_decide as E.
    + subst x. rewrite filter_cons_False by (by intros []).
      change (elements (None :: ls)) with (elements ls).
      by rewrite filter_ids_absent.
    + rewrite filter_cons_True by done.
      change (elements (Some f :: Set_delete x ls))
        with (f :: elements (Set_delete x ls)).
      by rewrite IH.
  - intros Hls. by apply IH.
Qed.

Lemma elements_Set_add f ls :
  elements (Set_add f ls) =
  if Set_has (fn_id f) ls then elements ls else elements ls ++ [f].
Proof.
  unfold Set_add. destruct (Set_has _ ls); [done|]. by rewrite elements_app.
Qed.

(** X4. An unsubscribe function removes its listener and nothing else: the
    other listeners stay, in their order, and the snapshot is untouched. So
    [subscribe] of a listener that was not registered, followed by a call of the
    function it returned, leaves the listeners of the store as they were. *)
Theorem unsubscribe_removes_only_its_listener (u : Unsubscribe) (st : State) :
  NoDup (ids (listeners st)) →
  elements (listeners (unsubscribe u st).2) =
    filter (λ g, fn_id g ≠ captured u) (elements (listeners st)) ∧
  data (unsubscribe u st).2 = data st ∧ heap (unsubscribe u st).2 = heap st ∧
  ∀ listener unsub st1,
    Set_has (fn_id listener) (listeners st) = false →
    subscribe listener st = (Normal unsub, st1) →
    elements (listeners (unsubscribe unsub st1).2) = elements (listeners st).
Proof.
  intros Hnd. split_and!; try done.
  - rewrite unsubscribe_unfold. simpl. by apply elements_Set_delete.
  - intros listener unsub st1 Hnew [= <- <-].
    rewrite unsubscribe_unfold. simpl.
    rewrite elements_Set_delete by by apply Set_add_NoDup.
    rewrite elements_Set_add, Hnew, filter_app.
    rewrite filter_ids_absent by by apply Set_has_false_ids.
    rewrite filter_cons_False by (by intros []). simpl. apply app_nil_r.
Qed.

(** X5. The order of the set is the order of the registrations that are
    still in force: a listener that is registered already keeps its place when
    it is passed to [subscribe] again, and a listener that is unsubscribed and
    then passed to [subscribe] again comes last. *)
Theorem subscribe_again_moves_last (listener : fn) (st : State) :
  NoDup (ids (listeners st)) →
  (Set_has (fn_id listener) (listeners st) = true →
   listeners (subscribe listener st).2 = listeners st) ∧
  elements (listeners
    (subscribe listener (unsubscribe (mkUnsubscribe (fn_id listener)) st).2).2) =
    filter (λ g, fn_id g ≠ fn_id listener) (elements (listeners st)) ++ [listener].
Proof.
  intros Hnd. split.
  - intros Hin. simpl. unfold Set_add. by rewrite Hin.
  - rewrite unsubscribe_unfold. simpl.
    rewrite elements_Set_add, Set_delete_has by done.
    by rewrite elements_Set_delete.
Qed.

(** ** Hooks on selectors that project the state *)

Lemma projects_field k : projects (field k) (read k).
Proof. by intros h l. Qed.

Lemma projects_field_or k d : projects (field_or k d) (read_or k d).
Proof. intros h l. unfold field_or, read_or. by destruct (read k _). Qed.

Lemma projects_optional_field k : projects (optional_field k) (read k).
Proof. by intros h l. Qed.

Lemma projects_after_merge selector p updates st ext :
  projects selector p →
  selector ((heap st ++ [spread2 (snapshot st) updates]) ++ ext)
    (VRef (length (heap st))) =
  Normal ([], p (spread2 (snapshot st) updates)).
Proof.
  intros Hp. rewrite Hp. unfold props.
  rewrite <- app_assoc, lookup_app_r by done. by rewrite Nat.sub_diag.
Qed.

(** An update seen from a subscription whose selector projects the state. *)
Lemma update_projects updates st i k selector p listener :
  projects selector p →
  subscribed st i k selector listener →
  previousValue st !! k = Some (p (snapshot st)) →
  ∃ st', update updates st = (Normal tt, st') ∧
         snapshot st' = spread2 (snapshot st) updates ∧
         subscribed st' i k selector listener ∧
         previousValue st' !! k = Some (p (snapshot st')) ∧
         notifications (fn_id listener) (calls st') =
           notifications (fn_id listener) (calls st) +
           (if Object_is (p (snapshot st)) (p (snapshot st')) then 0 else 1).
Proof.
  intros Hp Hsub Hsync.
  destruct (update_subscribed updates st i k selector listener
              (p (snapshot st)) (p (spread2 (snapshot st) updates)))
    as (st' & Hrun & Hsub' & Hmemo & Hn); [done| |done|].
  { intros ext. exists []. by apply projects_after_merge. }
  assert (Hsnap : snapshot st' = spread2 (snapshot st) updates).
  { by rewrite <- (update_snapshot updates st), Hrun. }
  exists st'. by rewrite Hsnap.
Qed.

Lemma reads_after_merge selector p updates st ext :
  reads selector p →
  selector ((heap st ++ [spread2 (snapshot st) updates]) ++ ext)
    (VRef (length (heap st))) =
  Normal ([], p (length (heap st)) (spread2 (snapshot st) updates)).
Proof.
  intros Hp. rewrite Hp. unfold props.
  rewrite <- app_assoc, lookup_app_r by done. by rewrite Nat.sub_diag.
Qed.

Lemma update_data updates st : data (update updates st).2 = length (heap st).
Proof. by rewrite update_unfold, (ev_data _ _ (emitChange_evolves _)). Qed.

(** An update seen from a subscription whose selector reads the state. *)
Lemma update_reads updates st i k selector p listener :
  reads selector p →
  subscribed st i k selector listener →
  previousValue st !! k = Some (selected p st) →
  ∃ st', update updates st = (Normal tt, st') ∧
         subscribed st' i k selector listener ∧
         previousValue st' !! k = Some (selected p st') ∧
         notifications (fn_id listener) (calls st') =
           notifications (fn_id listener) (calls st) +
           (if Object_is (selected p st) (selected p st') then 0 else 1).
Proof.
  intros Hp Hsub Hsync.
  destruct (update_subscribed updates st i k selector listener (selected p st)
              (p (length (heap st)) (spread2 (snapshot st) updates)))
    as (st' & Hrun & Hsub' & Hmemo & Hn); [done| |done|].
  { intros ext. exists []. by apply reads_after_merge. }
  assert (Hsel : selected p st' =
                 p (length (heap st)) (spread2 (snapshot st) updates)).
  { unfold selected.
    by rewrite <- (update_snapshot updates st), <- (update_data updates st), Hrun. }
  exists st'. by rewrite Hsel.
Qed.

Lemma updates_reads Ps : ∀ st i k selector p listener,
  reads selector p →
  subscribed st i k selector listener →
  previousValue st !! k = Some (selected p st) →
  let st' := run (DoUpdate <$> Ps) st in
  previousValue st' !! k = Some (selected p st') ∧
  notifications (fn_id listener) (calls st') =
    notifications (fn_id listener) (calls st) + changed p st Ps.
Proof.
  induction Ps as [|P Ps IH]; intros st i k selector p listener Hp Hsub Hsync.
  { simpl. split; [done|lia]. }
  destruct (update_reads P st i k selector p listener Hp Hsub Hsync)
    as (st1 & Hrun & Hsub1 & Hsync1 & Hn).
  destruct (IH st1 i k selector p listener Hp Hsub1 Hsync1) as [Hsync2 Hn2].
  cbv zeta. rewrite fmap_cons, run_cons. simpl. rewrite Hrun. simpl.
  split; [done|]. rewrite Hn2, Hn. lia.
Qed.

(** The count of changes of a projection of the properties depends on the
    patches only, and every update changes the state itself. *)
Lemma changed_projects p Ps : ∀ st,
  changed (λ _, p) st Ps = changes p (snapshot st) Ps.
Proof.
  induction Ps as [|P Ps IH]; intros st; [done|].
  simpl. unfold selected. by rewrite IH, update_snapshot.
Qed.

Lemma changed_whole_state Ps : ∀ st,
  wf st → changed (λ l _, VRef l) st Ps = length Ps.
Proof.
  induction Ps as [|P Ps IH]; intros st Hwf; [done|].
  simpl. unfold selected. rewrite IH by by apply update_wf.
  rewrite update_data. simpl. rewrite bool_decide_eq_false_2; [done|].
  pose proof (wf_data _ Hwf). lia.
Qed.

Lemma changed_ext p q Ps : ∀ st,
  (∀ l o, p l o = q l o) → changed p st Ps = changed q st Ps.
Proof.
  induction Ps as [|P Ps IH]; intros st Hpq; [done|].
  simpl. unfold selected. by rewrite IH, !Hpq.
Qed.

Lemma mount_state selector p listener st :
  reads selector p →
  Set_has (Checker (length (previousValue st))) (listeners st) = false →
  let st1 := (subscribeWithSelector selector listener st).2 in
  listeners st1 =
    listeners st ++ [Some (CheckForChange (length (previousValue st)) selector listener)] ∧
  previousValue st1 = previousValue st ++ [selected p st] ∧
  heap st1 = heap st ∧ data st1 = data st ∧ calls st1 = calls st.
Proof.
  intros Hp Hfresh. cbv zeta. rewrite subscribeWithSelector_unfold, Hp. simpl.
  unfold Set_add. simpl. rewrite Hfresh. by rewrite app_nil_r.
Qed.

(** Mounting a hook makes a subscription that starts from the value the hook
    reads. *)
Lemma mount_subscribed selector p listener st :
  reads selector p → mountable st listener →
  let st1 := (es_subscribe (createSelectorHook selector) listener st).2 in
  subscribed st1 (length (listeners st)) (length (previousValue st))
    selector listener ∧
  previousValue st1 !! length (previousValue st) = Some (selected p st1) ∧
  snapshot st1 = snapshot st ∧ calls st1 = calls st ∧
  heap st1 = heap st ∧ data st1 = data st.
Proof.
  intros Hp (Hfresh & HL & Hothers). cbv zeta.
  change (es_subscribe (createSelectorHook selector) listener st)
    with (subscribeWithSelector selector listener st).
  destruct (mount_state selector p listener st Hp Hfresh)
    as (Hls & Hpv & Hh & Hd & Hc).
  set (st1 := (subscribeWithSelector selector listener st).2) in *.
  assert (Hsnap : snapshot st1 = snapshot st).
  { unfold snapshot. by rewrite Hh, Hd. }
  split_and!; try done.
  - split_and!.
    + by rewrite Hls, lookup_app_r, Nat.sub_diag.
    + done.
    + intros j g Hj Hg. apply Hothers. rewrite Hls in Hg.
      destruct (decide (j < length (listeners st))) as [Hlt|Hge].
      * rewrite lookup_app_l in Hg by done. by eapply elements_lookup.
      * rewrite lookup_app_r in Hg by lia.
        destruct (j - length (listeners st)) as [|m] eqn:E; [lia|].
        by destruct m.
  - unfold selected. by rewrite Hpv, Hsnap, Hd, lookup_app_r, Nat.sub_diag.
Qed.


(** X7. Subscribers to one key are not told of updates of other keys: when
    the projection of a subscription depends on the key [key] only and the patch
    has no such key, the update calls the listener of the subscription not
    once. So the [setValue] of a hook on another key never notifies the
    subscribers to [key]. *)
Theorem update_of_other_keys_is_not_notified (st : State) (i k : nat)
    (key : string) (selector : Selector) (p : obj → value) (listener : fn) :
  projects selector p →
  (∀ o o' : obj, o !! key = o' !! key → p o = p o') →
  subscribed st i k selector listener →
  previousValue st !! k = Some (p (snapshot st)) →
  (∀ P, P !! key = None →
     ∃ st', update P st = (Normal tt, st') ∧
            notifications (fn_id listener) (calls st') =
              notifications (fn_id listener) (calls st) ∧
            subscribed st' i k selector listener ∧
            previousValue st' !! k = Some (p (snapshot st'))) ∧
  (∀ key' v, key' ≠ key →
     notifications (fn_id listener) (calls (setValue (set_field key') v st).2) =
     notifications (fn_id listener) (calls st)).
Proof.
  intros Hp Hkey Hsub Hsync.
  assert (Hpatch : ∀ P, P !! key = None →
     ∃ st', update P st = (Normal tt, st') ∧
            notifications (fn_id listener) (calls st') =
              notifications (fn_id listener) (calls st) ∧
            subscribed st' i k selector listener ∧
            previousValue st' !! k = Some (p (snapshot st'))).
  { intros P HP.
    destruct (update_projects P st i k selector p listener Hp Hsub Hsync)
      as (st' & Hrun & Hsnap & Hsub' & Hsync' & Hn).
    exists st'. split_and!; try done.
    rewrite Hn, Hsnap, (Hkey (snapshot st) (spread2 (snapshot st) P)).
    - rewrite Object_is_refl. lia.
    - by rewrite spread2_lookup, HP. }
  split; [done|]. intros key' v Hne. rewrite setValue_set_field.
  destruct (Hpatch {[ key' := v ]}) as (st' & Hrun & Hn & _).
  { by apply lookup_singleton_ne. }
  by rewrite Hrun.
Qed.

(** ** A consumer that throws *)

Lemma run_body_frame body st :
  previousValue (run_body body st).2 = previousValue st ∧
  data (run_body body st).2 = data st ∧
  heap (run_body body st).2 = heap st ∧
  ∀ c, notifications c (calls (run_body body st).2) = notifications c (calls st).
Proof.
  revert st. induction body as [|[target|e] body IH]; intros st; [done| |done].
  rewrite run_body_unsubscribe.
  destruct (IH (unsubscribe (mkUnsubscribe target) st).2) as (-> & -> & -> & Hn).
  split_and!; try done. intros c. rewrite Hn. simpl.
  rewrite notifications_snoc. rewrite decide_False by done. lia.
Qed.


(** ** A listener that unsubscribes a listener during the broadcast *)

(** A rule for the loop over listeners that return, whatever they do to the
    set: [Q j] holds when the loop is about to read entry [j]. *)
Lemma forEach_from_rule (Q : nat → State → Prop) a : ∀ i st,
  i + a ≤ length (listeners st) → Q i st →
  (∀ j s, i ≤ j < i + a → Q j s →
     match listeners s !! j with
     | Some (Some g) =>
         ∃ s', call g (record (Broadcast (fn_id g)) s).2 = (Normal tt, s') ∧
               Q (S j) s'
     | _ => Q (S j) s
     end) →
  ∃ st', forEach_from a i st = (Normal tt, st') ∧ Q (i + a) st'.
Proof.
  induction a as [|a IH]; intros i st Hi HQ Hstep.
  { exists st. by rewrite Nat.add_0_r. }
  rewrite forEach_from_S.
  pose proof (Hstep i st ltac:(lia) HQ) as Hi'.
  replace (i + S a) with (S i + a) by lia.
  destruct (listeners st !! i) as [[g|]|] eqn:He.
  - destruct Hi' as (s' & Hcall & HQ').
    pose proof (call_evolves g (record (Broadcast (fn_id g)) st).2) as E.
    rewrite Hcall in *. apply ev_listeners, deletes_length in E. simpl in E.
    apply IH; [lia|done|]. intros j s Hj. apply Hstep. lia.
  - apply IH; [lia|done|]. intros j s Hj. apply Hstep. lia.
  - apply lookup_ge_None in He. lia.
Qed.

Lemma Set_delete_length x ls : length (Set_delete x ls) = length ls.
Proof. apply deletes_length, Set_delete_deletes. Qed.

Lemma Set_delete_lookup x ls j g :
  Set_delete x ls !! j = Some (Some g) → ls !! j = Some (Some g).
Proof.
  revert j. induction ls as [|e ls IH]; intros j; simpl; [done|].
  destruct (holds x e); destruct j; simpl; try done. apply IH.
Qed.

Lemma Set_delete_app x l1 l2 :
  Set_delete x (l1 ++ l2) =
  if Set_has x l1 then Set_delete x l1 ++ l2 else l1 ++ Set_delete x l2.
Proof.
  unfold Set_has. induction l1 as [|e l1 IH]; simpl; [done|].
  destruct (holds x e); simpl; [done|]. rewrite IH. by destruct (existsb _ l1).
Qed.

Lemma broadcasts_snoc evs f :
  broadcasts (evs ++ [Broadcast f]) = broadcasts evs ++ [f].
Proof. by rewrite broadcasts_app. Qed.

Lemma ids_take_0 ls : ids (take 0 ls) = [].
Proof. done. Qed.

(** The broadcast when entry [i] of the set unsubscribes [x] and the other
    listeners are calm. *)
Lemma emitChange_unsubscribing st i n x :
  listeners st !! i = Some (Some (Callback n [CallUnsubscribe x])) →
  (∀ j g, j ≠ i → listeners st !! j = Some (Some g) → calm g) →
  ∃ st', emitChange st = (Normal tt, st') ∧
         listeners st' = Set_delete x (listeners st) ∧
         broadcasts (calls st') =
           broadcasts (calls st) ++ ids (take (S i) (listeners st)) ++
           ids (drop (S i) (Set_delete x (listeners st))).
Proof.
  intros Hi Hcalm. unfold emitChange.
  set (ls := listeners st). set (ls' := Set_delete x ls).
  assert (Hlen : i < length ls) by by eapply lookup_lt_Some.
  destruct (forEach_from_rule
    (λ j s, listeners s = (if decide (j ≤ i) then ls else ls') ∧
            broadcasts (calls s) =
              broadcasts (calls st) ++ ids (take (j `min` S i) ls) ++
              ids (take (j - S i) (drop (S i) ls')))
    (length ls) 0 st) as (st' & Hrun & Hls & Hb); [done| | |].
  - split; [done|]. simpl. by rewrite !app_nil_r.
  - intros j s Hj.
    destruct (decide (j ≤ i)) as [Hle|Hgt]; intros [Hs Hb]; rewrite Hs.
    + destruct (decide (j = i)) as [->|Hne].
      * fold ls in Hi. rewrite Hi. eexists. split; [reflexivity|]. simpl.
        rewrite decide_False by lia. split; [by rewrite Hs|].
        rewrite broadcasts_app, broadcasts_app, Hb. simpl.
        rewrite Nat.min_id, Nat.sub_diag, Nat.min_l by lia.
        replace (i - S i) with 0 by lia. simpl.
        rewrite ids_take_S, Hi, !app_nil_r.
        by rewrite <- !app_assoc.
      * destruct (ls !! j) as [[g|]|] eqn:Hg.
        -- destruct (Hcalm j g Hne Hg (record (Broadcast (fn_id g)) s).2)
             as (s' & Hcall & Hs').
           pose proof (call_broadcasts g (record (Broadcast (fn_id g)) s).2) as Hb'.
           rewrite Hcall in Hb'. simpl in Hb', Hs'.
           exists s'. split; [done|]. rewrite decide_True by lia.
           split; [congruence|].
           rewrite Hb', broadcasts_snoc, Hb.
           rewrite !Nat.min_l by lia. replace (j - S i) with 0 by lia.
           replace (S j - S i) with 0 by lia.
           rewrite ids_take_0, ids_take_S, Hg, !app_nil_r.
           by rewrite <- !app_assoc.
        -- rewrite decide_True by lia. split; [done|]. rewrite Hb.
           rewrite !Nat.min_l by lia. replace (j - S i) with 0 by lia.
           replace (S j - S i) with 0 by lia.
           by rewrite ids_take_0, ids_take_S, Hg, !app_nil_r.
        -- apply lookup_ge_None in Hg. lia.
    + assert (Hmin : ∀ m, i < m → m `min` S i = S i) by (intros; lia).
      rewrite !Hmin by lia. rewrite Hmin in Hb by lia.
      replace (S j - S i) with (S (j - S i)) by lia.
      assert (Hdrop : drop (S i) ls' !! (j - S i) = ls' !! j).
      { rewrite lookup_drop. f_equal. lia. }
      rewrite (ids_take_S (drop (S i) ls') (j - S i)), Hdrop.
      destruct (ls' !! j) as [[g|]|] eqn:Hg.
      * assert (Hg' : ls !! j = Some (Some g)) by by eapply Set_delete_lookup.
        destruct (Hcalm j g ltac:(lia) Hg' (record (Broadcast (fn_id g)) s).2)
          as (s' & Hcall & Hs').
        pose proof (call_broadcasts g (record (Broadcast (fn_id g)) s).2) as Hb'.
        rewrite Hcall in Hb'. simpl in Hb', Hs'.
        exists s'. split; [done|]. rewrite decide_False by lia.
        split; [congruence|].
        rewrite Hb', broadcasts_snoc, Hb. by rewrite <- !app_assoc.
      * rewrite decide_False by lia. split; [done|]. by rewrite Hb, !app_nil_r.
      * rewrite decide_False by lia. split; [done|]. by rewrite Hb, !app_nil_r.
  - exists st'. simpl in Hls, Hb. rewrite decide_False in Hls by lia.
    split_and!; [done..|]. rewrite Hb. rewrite Nat.min_r by lia.
    rewrite (take_ge (drop (S i) ls')); [done|].
    rewrite length_drop. unfold ls'. rewrite Set_delete_length. lia.
Qed.

Lemma sublist_drop_ids n ls : NoDup (ids ls) → NoDup (ids (drop n ls)).
Proof.
  intros H. rewrite <- (take_drop n ls), ids_app in H.
  by apply NoDup_app in H as (_ & _ & H).
Qed.

(** The listeners called when entry [i] unsubscribes [x]: those up to [i],
    then those after [i] that are still in the set. *)
Lemma called_when_unsubscribing (ls : list (option fn)) (i : nat) (x : fid) :
  NoDup (ids ls) → i < length ls →
  ids (take (S i) ls) ++ ids (drop (S i) (Set_delete x ls)) =
    if Set_has x (take (S i) ls)
    then fn_id <$> elements ls
    else fn_id <$> filter (λ g, fn_id g ≠ x) (elements ls).
Proof.
  intros Hnd Hlen.
  assert (Hlen1 : length (take (S i) ls) = S i) by (rewrite length_take; lia).
  pose proof (sublist_drop_ids (S i) ls Hnd) as Hnd2.
  remember (take (S i) ls) as l1 eqn:E1. remember (drop (S i) ls) as l2 eqn:E2.
  assert (Hsplit : ls = l1 ++ l2) by (subst l1 l2; symmetry; apply take_drop).
  rewrite Hsplit, Set_delete_app. destruct (Set_has x l1) eqn:Hx.
  - rewrite drop_app_length' by by rewrite Set_delete_length.
    fold (ids (l1 ++ l2)). by rewrite ids_app.
  - rewrite drop_app_length' by done.
    rewrite elements_app, filter_app, fmap_app.
    rewrite filter_ids_absent by by apply Set_has_false_ids.
    f_equal. unfold ids. f_equal. by apply elements_Set_delete.
Qed.

(** X9. When a listener unsubscribes a listener during the broadcast, the
    broadcast goes on, and the one listener it may skip is the unsubscribed
    one: if that listener was called already in this broadcast (or is the
    caller itself) every listener of the set is called, each once, in order;
    if it was still to be called, it is not called, and every other listener
    is, in order. *)
Theorem unsubscribe_during_broadcast (st : State) (P : obj) (i n : nat) (x : fid) :
  NoDup (ids (listeners st)) →
  listeners st !! i = Some (Some (Callback n [CallUnsubscribe x])) →
  (∀ j g, j ≠ i → listeners st !! j = Some (Some g) → calm g) →
  ∃ st' called,
    update P st = (Normal tt, st') ∧
    listeners st' = Set_delete x (listeners st) ∧
    broadcasts (calls st') = broadcasts (calls st) ++ called ∧
    called =
      if Set_has x (take (S i) (listeners st))
      then fn_id <$> elements (listeners st)
      else fn_id <$> filter (λ g, fn_id g ≠ x) (elements (listeners st)).
Proof.
  intros Hnd Hi Hcalm. rewrite update_unfold.
  destruct (emitChange_unsubscribing (merge P st).2 i n x Hi Hcalm)
    as (st' & Hrun & Hls & Hb).
  simpl in Hls, Hb.
  assert (Hlen : i < length (listeners st)) by by eapply lookup_lt_Some.
  eexists st', _. split_and!; [done|done|exact Hb|].
  by apply called_when_unsubscribing.
Qed.

Lemma elements_lookup_inv ls g :
  g ∈ elements ls → ∃ j, ls !! j = Some (Some g).
Proof.
  intros (e & He & <-)%list_elem_of_omap. by apply list_elem_of_lookup_1.
Qed.

(** X10. A listener that unsubscribes itself when it is called is called
    once for all: the update that calls it calls every listener of the set, it
    included, and the updates after that one call every other listener, in
    order, and not it. *)
Theorem listener_that_unsubscribes_itself (st : State) (P P' : obj) (i n : nat) :
  NoDup (ids (listeners st)) →
  listeners st !! i = Some (Some (Callback n [CallUnsubscribe (User n)])) →
  (∀ j g, j ≠ i → listeners st !! j = Some (Some g) → calm g) →
  ∃ st1 st2,
    update P st = (Normal tt, st1) ∧
    broadcasts (calls st1) =
      broadcasts (calls st) ++ (fn_id <$> elements (listeners st)) ∧
    update P' st1 = (Normal tt, st2) ∧
    broadcasts (calls st2) =
      broadcasts (calls st1) ++
      (fn_id <$> filter (λ g, fn_id g ≠ User n) (elements (listeners st))).
Proof.
  intros Hnd Hi Hcalm.
  destruct (emitChange_unsubscribing (merge P st).2 i n (User n) Hi Hcalm)
    as (st1 & Hrun1 & Hls1 & Hb1).
  rewrite <- update_unfold in Hrun1. simpl in Hls1, Hb1.
  assert (Hlen : i < length (listeners st)) by by eapply lookup_lt_Some.
  assert (Hself : Set_has (User n) (take (S i) (listeners st)) = true).
  { apply (lookup_Set_has _ i (Callback n [CallUnsubscribe (User n)])).
    by rewrite lookup_take_lt by lia. }
  rewrite called_when_unsubscribing, Hself in Hb1 by done.
  assert (Hel : elements (listeners st1) =
                filter (λ g, fn_id g ≠ User n) (elements (listeners st))).
  { rewrite Hls1. by apply elements_Set_delete. }
  destruct (update_calm P' st1) as (st2 & Hrun2 & _ & Hb2).
  { intros g. rewrite Hel. intros [Hne Hg]%list_elem_of_filter.
    destruct (elements_lookup_inv _ _ Hg) as [j Hj].
    apply (Hcalm j g); [|done]. intros ->. rewrite Hi in Hj.
    injection Hj as <-. by destruct Hne. }
  exists st1, st2. split_and!; try done.
  unfold ids in Hb2. by rewrite Hb2, Hel.
Qed.

(** ** The counter component *)

Lemma set_heap_nil st : set_heap (heap st ++ []) st = st.
Proof. destruct st. unfold set_heap. simpl. by rewrite app_nil_r. Qed.

Lemma select_projects_pure selector p st :
  projects selector p →
  select selector (VRef (data st)) st = (Normal (p (snapshot st)), st).
Proof. intros Hp. unfold select. by rewrite Hp, set_heap_nil. Qed.

Lemma external_read selector p st :
  projects selector p →
  es_getSnapshot (external selector) st = (Normal (p (snapshot st)), st).
Proof.
  intros Hp. simpl. rewrite bind_unfold. simpl. by apply select_projects_pure.
Qed.

Lemma Counter_unfold plus minus parseInt st :
  Counter plus minus parseInt st =
  (Normal
     {| count := read_or "count" (number 0) (snapshot st);
        step := read_or "step" (number 1) (snapshot st);
        increment :=
          useCount.2 (plus (read_or "count" (number 0) (snapshot st))
                           (read_or "step" (number 1) (snapshot st)));
        decrement :=
          useCount.2 (minus (read_or "count" (number 0) (snapshot st))
                            (read_or "step" (number 1) (snapshot st)));
        reset := useCount.2 (number 0);
        onChange := λ target_value,
          useStep.2 (or_else (VNumber (parseInt target_value)) (number 1)) |},
   st).
Proof.
  unfold Counter. rewrite bind_unfold.
  change (es_getSnapshot useCount.1)
    with (es_getSnapshot (external (field_or "count" (number 0)))).
  rewrite (external_read _ _ st (projects_field_or "count" (number 0))).
  rewrite bind_unfold.
  change (es_getSnapshot useStep.1)
    with (es_getSnapshot (external (field_or "step" (number 1)))).
  by rewrite (external_read _ _ st (projects_field_or "step" (number 1))).
Qed.

Lemma snapshot_set_field f v st k :
  snapshot (setValue (set_field f) v st).2 !! k =
  if decide (f = k) then Some v else snapshot st !! k.
Proof.
  rewrite setValue_set_field, update_snapshot, spread2_lookup.
  case_decide as E.
  - subst. by rewrite lookup_singleton_eq.
  - by rewrite lookup_singleton_ne.
Qed.

Lemma or_else_number x :
  ∃ y, or_else (VNumber x) (number 1) = VNumber y ∧
       y = (if ToBoolean (VNumber x) then x else binary_normalize 53 1024 1 0 false) ∧
       y ≠ S754_nan ∧ ∀ s, y ≠ S754_zero s.
Proof.
  unfold or_else. destruct (ToBoolean (VNumber x)) eqn:E.
  - exists x. split_and!; [done..| |]; intros; by destruct x.
  - eexists. split_and!; [done..| |]; intros; by vm_compute.
Qed.

(** X11. A render of the counter reads the store and changes nothing, and
    the step it stores from its input is never [NaN] and never zero: after
    [onChange] with any text, the step the component reads is the number
    [parseInt] makes of the text when that number is neither [NaN] nor a zero,
    and [1] otherwise; the count is untouched. *)
Theorem Counter_step_is_never_zero (plus minus : value → value → value)
    (parseInt : string → spec_float) (st0 : State) :
  ∃ view, Counter plus minus parseInt st0 = (Normal view, st0) ∧
    ∀ st target_value,
      let st' := (onChange view target_value st).2 in
      ∃ x, (es_getSnapshot useStep.1 st').1 = Normal (VNumber x) ∧
           x = (if ToBoolean (VNumber (parseInt target_value))
                then parseInt target_value
                else binary_normalize 53 1024 1 0 false) ∧
           x ≠ S754_nan ∧ (∀ s, x ≠ S754_zero s) ∧
           (es_getSnapshot useCount.1 st').1 = (es_getSnapshot useCount.1 st).1.
Proof.
  eexists. split; [apply Counter_unfold|]. intros st target_value.
  cbv zeta. simpl onChange.
  change (useStep.2) with (setValue (set_field "step")).
  destruct (or_else_number (parseInt target_value)) as (x & Hx & Hval & Hnan & Hzero).
  rewrite Hx. exists x.
  change (es_getSnapshot useStep.1)
    with (es_getSnapshot (external (field_or "step" (number 1)))).
  change (es_getSnapshot useCount.1)
    with (es_getSnapshot (external (field_or "count" (number 0)))).
  rewrite !(external_read _ _ _ (projects_field_or _ _)). cbn [fst].
  unfold read_or, read.
  rewrite !snapshot_set_field. rewrite decide_True by done.
  rewrite decide_False by done.
  split_and!; [reflexivity|exact Hval|exact Hnan|exact Hzero|reflexivity].
Qed.

(** X12. The handlers of the counter work on what was rendered, not on what
    the store holds when they run: [increment] sets the count to the sum of the
    count and the step that the render read, so two clicks on one render set
    the count once; [decrement] sets it to their difference and [reset] to [0].
    Each of them writes the count and no other key. *)
Theorem Counter_handlers_use_rendered_values (plus minus : value → value → value)
    (parseInt : string → spec_float) (st0 : State) :
  ∃ view, Counter plus minus parseInt st0 = (Normal view, st0) ∧
    count view = read_or "count" (number 0) (snapshot st0) ∧
    step view = read_or "step" (number 1) (snapshot st0) ∧
    ∀ st,
      snapshot (increment view st).2 !! "count" =
        Some (plus (count view) (step view)) ∧
      snapshot (decrement view st).2 !! "count" =
        Some (minus (count view) (step view)) ∧
      snapshot (reset view st).2 !! "count" = Some (number 0) ∧
      snapshot (increment view (increment view st).2).2 =
        snapshot (increment view st).2 ∧
      (∀ k, k ≠ "count" →
         snapshot (increment view st).2 !! k = snapshot st !! k ∧
         snapshot (decrement view st).2 !! k = snapshot st !! k ∧
         snapshot (reset view st).2 !! k = snapshot st !! k).
Proof.
  eexists. split; [apply Counter_unfold|]. cbn [count step increment decrement reset].
  split_and!; try done. intros st.
  change (useCount.2) with (setValue (set_field "count")).
  rewrite !snapshot_set_field, !decide_True by done. split_and!; try done.
  - rewrite !setValue_set_field, !update_snapshot. unfold spread2.
    by rewrite (assoc_L (∪)), (idemp_L (∪)).
  - intros k Hk. rewrite !snapshot_set_field, !decide_False by done. done.
Qed.

(** ** The hooks of the server-side rendering example *)

Lemma props_app_valid h ext l : l < length h → props (h ++ ext) l = props h l.
Proof. intros Hl. unfold props. by rewrite lookup_app_l. Qed.

Lemma usePosts_read st :
  es_getSnapshot usePosts st =
  match read "posts" (snapshot st) with
  | VUndefined | VNull =>
      (Normal (VRef (length (heap st))), set_heap (heap st ++ [∅]) st)
  | v => (Normal v, st)
  end.
Proof.
  simpl. rewrite bind_unfold. simpl. unfold select, posts_or_empty.
  fold (snapshot st). by destruct (read "posts" (snapshot st)); rewrite ?set_heap_nil.
Qed.

Lemma snapshot_alloc st o :
  data st < length (heap st) → snapshot (set_heap (heap st ++ [o]) st) = snapshot st.
Proof. intros Hd. unfold snapshot. simpl. by apply props_app_valid. Qed.

Lemma usePosts_read_nullish st :
  data st < length (heap st) →
  read "posts" (snapshot st) = VUndefined ∨ read "posts" (snapshot st) = VNull →
  let read1 := es_getSnapshot usePosts st in
  let read2 := es_getSnapshot usePosts read1.2 in
  read1.1 = Normal (VRef (length (heap st))) ∧
  read2.1 = Normal (VRef (S (length (heap st)))) ∧
  heap read2.2 = heap st ++ [∅; ∅] ∧ data read2.2 = data st ∧
  snapshot read1.2 = snapshot st ∧ snapshot read2.2 = snapshot st.
Proof.
  intros Hd Hposts. cbv zeta.
  assert (H1 : es_getSnapshot usePosts st =
               (Normal (VRef (length (heap st))), set_heap (heap st ++ [∅]) st)).
  { rewrite usePosts_read. by destruct Hposts as [-> | ->]. }
  rewrite H1. cbn [fst snd].
  set (st1 := set_heap (heap st ++ [∅]) st).
  assert (Hsnap1 : snapshot st1 = snapshot st) by by apply snapshot_alloc.
  assert (Hd1 : data st1 < length (heap st1)).
  { unfold st1. simpl. rewrite length_app. simpl. lia. }
  assert (H2 : es_getSnapshot usePosts st1 =
               (Normal (VRef (length (heap st1))), set_heap (heap st1 ++ [∅]) st1)).
  { rewrite usePosts_read, Hsnap1. by destruct Hposts as [-> | ->]. }
  rewrite H2. cbn [fst snd]. split_and!; try done.
  - unfold st1. simpl. rewrite length_app. simpl. do 2 f_equal. lia.
  - unfold st1. simpl. by rewrite <- app_assoc.
  - by rewrite snapshot_alloc.
Qed.

(** X13. [usePosts] reads [posts ?? []]: while the snapshot has no [posts]
    (or [null]), every read allocates an array, so two reads with no update
    between them return two empty arrays that [Object.is] tells apart, whereas
    the selector of its subscription yields the same value both times. When
    the snapshot has [posts], the read is that value, again and again.
    [useUser] reads [user ?? null], which is the same value at each read. *)
Theorem usePosts_read_allocates (st : State) :
  data st < length (heap st) →
  let read1 := es_getSnapshot usePosts st in
  let read2 := es_getSnapshot usePosts read1.2 in
  data read2.2 = data st ∧ snapshot read2.2 = snapshot st ∧
  (match read "posts" (snapshot st) with
   | VUndefined | VNull =>
       ∃ l1 l2, read1.1 = Normal (VRef l1) ∧ read2.1 = Normal (VRef l2) ∧
                Object_is (VRef l1) (VRef l2) = false ∧
                props (heap read2.2) l1 = ∅ ∧ props (heap read2.2) l2 = ∅
   | v => read1.1 = Normal v ∧ read2.1 = Normal v
   end) ∧
  (select (optional_field "posts") (VRef (data st)) read1.2).1 =
    (select (optional_field "posts") (VRef (data st)) st).1 ∧
  (es_getSnapshot useUser (es_getSnapshot useUser st).2).1 =
    (es_getSnapshot useUser st).1.
Proof.
  intros Hd. cbv zeta.
  assert (Huser : projects user_or_null (read_or "user" VNull)).
  { intros h l. unfold user_or_null, read_or. by destruct (read "user" _). }
  assert (Hsel : ∀ s, snapshot s = snapshot st → data s = data st →
            (select (optional_field "posts") (VRef (data st)) s).1 =
            Normal (read "posts" (snapshot st))).
  { intros s Hs Hds. rewrite <- Hds, <- Hs.
    apply (select_projects _ _ s (projects_optional_field "posts")). }
  assert (Hnullish : read "posts" (snapshot st) = VUndefined ∨
                     read "posts" (snapshot st) = VNull →
    data (es_getSnapshot usePosts (es_getSnapshot usePosts st).2).2 = data st ∧
    snapshot (es_getSnapshot usePosts (es_getSnapshot usePosts st).2).2 = snapshot st ∧
    (∃ l1 l2,
       (es_getSnapshot usePosts st).1 = Normal (VRef l1) ∧
       (es_getSnapshot usePosts (es_getSnapshot usePosts st).2).1 = Normal (VRef l2) ∧
       Object_is (VRef l1) (VRef l2) = false ∧
       props (heap (es_getSnapshot usePosts (es_getSnapshot usePosts st).2).2) l1 = ∅ ∧
       props (heap (es_getSnapshot usePosts (es_getSnapshot usePosts st).2).2) l2 = ∅) ∧
    (select (optional_field "posts") (VRef (data st)) (es_getSnapshot usePosts st).2).1 =
      (select (optional_field "posts") (VRef (data st)) st).1).
  { intros Hposts.
    destruct (usePosts_read_nullish st Hd Hposts) as (H1 & H2 & Hh & Hd2 & Hs1 & Hs2).
    split_and!; try done.
    - exists (length (heap st)), (S (length (heap st))). rewrite Hh.
      split_and!; try done.
      + apply bool_decide_eq_false_2. lia.
      + unfold props. by rewrite lookup_app_r, Nat.sub_diag.
      + unfold props. rewrite lookup_app_r by lia.
        by replace (S (length (heap st)) - length (heap st)) with 1 by lia.
    - rewrite !Hsel; try done. rewrite usePosts_read.
      by destruct Hposts as [-> | ->]. }
  assert (Hpresent : ∀ v, read "posts" (snapshot st) = v →
    v ≠ VUndefined → v ≠ VNull → es_getSnapshot usePosts st = (Normal v, st)).
  { intros v Hv H1 H2. rewrite usePosts_read, Hv. by destruct v. }
  change (es_getSnapshot useUser) with (es_getSnapshot (external user_or_null)).
  rewrite !(external_read _ _ _ Huser). cbn [fst snd].
  destruct (read "posts" (snapshot st)) as [| |b|x|s|l] eqn:Hposts.
  1, 2: specialize (Hnullish ltac:(auto));
    destruct Hnullish as (? & ? & ? & ?); by split_and!.
  all: rewrite (Hpresent _ eq_refl) by done; cbn [fst snd];
    rewrite (Hpresent _ eq_refl) by done; by split_and!.
Qed.

(** ** These theorems at the counter *)

Lemma getSnapshot_stable_between_updates_witness :
  let acts := [DoSubscribe (onStoreChange 5);
               DoUnsubscribe (mkUnsubscribe (Checker 0))] in
  wf watched ∧ (∀ P, DoUpdate P ∉ acts) ∧
  reads (field_or "count" (number 0)) (λ _, read_or "count" (number 0)) ∧
  reads whole_state (λ l _, VRef l) ∧
  getSnapshot watched = (Normal (VRef (data watched)), watched) ∧
  (getSnapshot (run acts watched)).1 = (getSnapshot watched).1 ∧
  snapshot (run acts watched) = snapshot watched ∧
  (es_getSnapshot useCount.1 (run acts watched)).1 =
    (es_getSnapshot useCount.1 watched).1 ∧
  (es_getSnapshot useCounterState (run acts watched)).1 =
    (es_getSnapshot useCounterState watched).1.
Proof.
  intros acts.
  assert (Hacts : ∀ P, DoUpdate P ∉ acts).
  { intros P HP. apply elem_of_cons in HP as [HP|HP]; [done|].
    by apply list_elem_of_singleton in HP. }
  pose proof (projects_reads _ _ (projects_field_or "count" (number 0))) as Hcount.
  destruct (getSnapshot_stable_between_updates acts watched watched_wf Hacts)
    as (Hget & Hsame & Hsnap & Hhook).
  split_and!; [apply watched_wf|done|done|apply reads_whole_state|done..| |].
  - apply (Hhook _ _ Hcount).
  - apply (Hhook _ _ reads_whole_state).
Defined.

Lemma unsubscribe_removes_only_its_listener_witness :
  let u := mkUnsubscribe (Checker 0) in
  let listener := onStoreChange 9 in
  NoDup (ids (listeners watched)) ∧
  Set_has (fn_id listener) (listeners watched) = false ∧
  elements (listeners (unsubscribe u watched).2) =
    filter (λ g, fn_id g ≠ captured u) (elements (listeners watched)) ∧
  data (unsubscribe u watched).2 = data watched ∧
  heap (unsubscribe u watched).2 = heap watched ∧
  elements (listeners
    (unsubscribe (mkUnsubscribe (fn_id listener)) (subscribe listener watched).2).2) =
    elements (listeners watched).
Proof.
  intros u listener.
  assert (Hnd : NoDup (ids (listeners watched))).
  { refine (bool_decide_unpack _ _). by vm_compute. }
  destruct (unsubscribe_removes_only_its_listener u watched Hnd)
    as (Hfilter & Hdata & Hheap & Hround).
  split_and!; [done..|].
  apply (Hround listener _ _ eq_refl eq_refl).
Defined.

Lemma subscribe_again_moves_last_witness :
  let listener := CheckForChange 0 (field "count") (onStoreChange 0) in
  NoDup (ids (listeners watched)) ∧
  Set_has (fn_id listener) (listeners watched) = true ∧
  listeners (subscribe listener watched).2 = listeners watched ∧
  elements (listeners
    (subscribe listener
       (unsubscribe (mkUnsubscribe (fn_id listener)) watched).2).2) =
    filter (λ g, fn_id g ≠ fn_id listener) (elements (listeners watched)) ++
    [listener].
Proof.
  intros listener.
  assert (Hnd : NoDup (ids (listeners watched))).
  { refine (bool_decide_unpack _ _). by vm_compute. }
  destruct (subscribe_again_moves_last listener watched Hnd) as (Hsame & Hlast).
  split_and!; [done|done|by apply Hsame|done].
Defined.


Lemma update_of_other_keys_is_not_notified_witness :
  let P : obj := {[ "step" := number 5 ]} in
  projects (field "count") (read "count") ∧
  (∀ o o' : obj, o !! "count" = o' !! "count" → read "count" o = read "count" o') ∧
  subscribed watched 0 0 (field "count") (onStoreChange 0) ∧
  previousValue watched !! 0 = Some (read "count" (snapshot watched)) ∧
  P !! "count" = None ∧
  (∃ st', update P watched = (Normal tt, st') ∧
          notifications (User 0) (calls st') =
            notifications (User 0) (calls watched) ∧
          subscribed st' 0 0 (field "count") (onStoreChange 0) ∧
          previousValue st' !! 0 = Some (read "count" (snapshot st'))) ∧
  notifications (User 0)
    (calls (setValue (set_field "step") (number 5) watched).2) =
    notifications (User 0) (calls watched).
Proof.
  intros P.
  assert (Hdep : ∀ o o' : obj, o !! "count" = o' !! "count" →
                 read "count" o = read "count" o').
  { intros o o' H. unfold read. by rewrite H. }
  assert (Hsync : previousValue watched !! 0 = Some (read "count" (snapshot watched)))
    by by vm_compute.
  destruct (update_of_other_keys_is_not_notified watched 0 0 "count" (field "count")
              (read "count") (onStoreChange 0) (projects_field "count") Hdep
              watched_count Hsync) as (Hupdate & Hset).
  split_and!; [apply projects_field|done|apply watched_count|done|done| |].
  - by apply Hupdate.
  - by apply (Hset "step" (number 5)).
Defined.


Lemma unsubscribe_during_broadcast_witness :
  NoDup (ids (listeners pruned)) ∧
  listeners pruned !! 0 = Some (Some pruner) ∧
  (∀ j g, j ≠ 0 → listeners pruned !! j = Some (Some g) → calm g) ∧
  ∃ st' called,
    update ∅ pruned = (Normal tt, st') ∧
    listeners st' = Set_delete (User 1) (listeners pruned) ∧
    broadcasts (calls st') = broadcasts (calls pruned) ++ called ∧
    called =
      if Set_has (User 1) (take 1 (listeners pruned))
      then fn_id <$> elements (listeners pruned)
      else fn_id <$> filter (λ g, fn_id g ≠ User 1) (elements (listeners pruned)).
Proof.
  assert (Hnd : NoDup (ids (listeners pruned))).
  { refine (bool_decide_unpack _ _). by vm_compute. }
  assert (Hcalm : ∀ j g, j ≠ 0 → listeners pruned !! j = Some (Some g) → calm g).
  { intros [|[|[|j]]] g Hj Hg; [done| | |done];
      injection Hg as <-; apply calm_Callback. }
  split_and!; [done|done|done|].
  apply (unsubscribe_during_broadcast pruned ∅ 0 0 (User 1) Hnd eq_refl Hcalm).
Defined.

Lemma listener_that_unsubscribes_itself_witness :
  NoDup (ids (listeners with_once)) ∧
  listeners with_once !! 1 = Some (Some once) ∧
  (∀ j g, j ≠ 1 → listeners with_once !! j = Some (Some g) → calm g) ∧
  ∃ st1 st2,
    update ∅ with_once = (Normal tt, st1) ∧
    broadcasts (calls st1) =
      broadcasts (calls with_once) ++ (fn_id <$> elements (listeners with_once)) ∧
    update ∅ st1 = (Normal tt, st2) ∧
    broadcasts (calls st2) =
      broadcasts (calls st1) ++
      (fn_id <$> filter (λ g, fn_id g ≠ User 1) (elements (listeners with_once))).
Proof.
  assert (Hnd : NoDup (ids (listeners with_once))).
  { refine (bool_decide_unpack _ _). by vm_compute. }
  assert (Hcalm : ∀ j g, j ≠ 1 → listeners with_once !! j = Some (Some g) → calm g).
  { intros [|[|[|j]]] g Hj Hg; [|done| |done];
      injection Hg as <-; apply calm_Callback. }
  split_and!; [done|done|done|].
  apply (listener_that_unsubscribes_itself with_once ∅ ∅ 1 1 Hnd eq_refl Hcalm).
Defined.

Lemma Counter_handlers_use_rendered_values_witness :
  ∃ view,
    Counter number_plus number_minus (λ _, S754_zero false) counterStore =
      (Normal view, counterStore) ∧
    count view = number 0 ∧ step view = number 1 ∧
    snapshot (increment view counterStore).2 !! "count" =
      Some (number_plus (number 0) (number 1)) ∧
    snapshot (increment view counterStore).2 !! "step" =
      snapshot counterStore !! "step".
Proof.
  destruct (Counter_handlers_use_rendered_values number_plus number_minus
              (λ _, S754_zero false) counterStore)
    as (view & Hview & Hcount & Hstep & Hhandlers).
  destruct (Hhandlers counterStore) as (Hinc & _ & _ & _ & Hother).
  destruct (Hother "step" ltac:(done)) as (Hinc' & _).
  exists view. rewrite Hinc, Hinc', Hcount, Hstep. by split_and!.
Defined.

Lemma usePosts_read_allocates_witness :
  let st := new_Store_from [] VNull in
  let read1 := es_getSnapshot usePosts st in
  let read2 := es_getSnapshot usePosts read1.2 in
  data st < length (heap st) ∧
  read "posts" (snapshot st) = VUndefined ∧
  data read2.2 = data st ∧ snapshot read2.2 = snapshot st ∧
  (∃ l1 l2, read1.1 = Normal (VRef l1) ∧ read2.1 = Normal (VRef l2) ∧
            Object_is (VRef l1) (VRef l2) = false ∧
            props (heap read2.2) l1 = ∅ ∧ props (heap read2.2) l2 = ∅) ∧
  (select (optional_field "posts") (VRef (data st)) read1.2).1 =
    (select (optional_field "posts") (VRef (data st)) st).1 ∧
  (es_getSnapshot useUser (es_getSnapshot useUser st).2).1 =
    (es_getSnapshot useUser st).1.
Proof.
  intros st read1 read2.
  assert (Hvalid : data st < length (heap st)) by (vm_compute; lia).
  destruct (usePosts_read_allocates st Hvalid)
    as (Hdata & Hsnap & Hposts & Hsel & Huser).
  by split_and!.
Defined.
